(** * vaultsync: the secret-tree synchronisation engine and its diff preview

  A shallow embedding of the Go sources of vaultsync (the Vault client of
  [src/unnamed/part_001]): the metadata/data path translation of
  [GetSecret] and [PutSecret], the remote walker
  [pullSecretsRecursivelyHelper], the file mapping of [writeSecretToFile]
  and [PushSecretsFromFiles], and the diff engine ([showDryRunDiff],
  [generateUnifiedDiff], [writeHunk], [generateShortHash]).

  Conventions.
  - A Go [string] is a sequence of bytes: [String.string], whose
    characters are the 8-bit [ascii].
  - A Go [error] is its message; [fmt.Errorf("ctx: %w", err)] is the
    concatenation of the context and the wrapped message.
  - Go's [int] is the 64-bit two's-complement integer of the platforms the
    Makefile builds for (amd64, arm64): a [Z] with the wrap-around written
    out.
  - [map[string]map[string]interface{}] is a [gmap string Payload].
  - Standard output is a list of events, the latest last. *)

From Stdlib Require Import String Ascii List ZArith Lia Bool DecimalString.
From stdpp Require Import gmap strings.
Import ListNotations.
Open Scope string_scope.

(** ** The [strings] package *)

Module GoStrings.

(** [strings.Split(s, sep)] for a one-byte separator: the pieces between
    the separators, never an empty slice. *)
Fixpoint Split (s : string) (sep : ascii) : list string :=
  match s with
  | EmptyString => [EmptyString]
  | String c s' =>
      if Ascii.eqb c sep then EmptyString :: Split s' sep
      else match Split s' sep with
           | [] => [String c EmptyString]
           | piece :: pieces => String c piece :: pieces
           end
  end.

(** [strings.Join(elems, sep)]. *)
Fixpoint Join (elems : list string) (sep : string) : string :=
  match elems with
  | [] => ""
  | [e] => e
  | e :: rest => e ++ sep ++ Join rest sep
  end.

(** [strings.HasPrefix(s, prefix)]. *)
Definition HasPrefix (s prefix : string) : bool := String.prefix prefix s.

(** [strings.TrimPrefix(s, prefix)]. *)
Definition TrimPrefix (s prefix : string) : string :=
  if HasPrefix s prefix
  then substring (String.length prefix)
                 (String.length s - String.length prefix) s
  else s.

(** [strings.HasSuffix(s, suffix)]. *)
Definition HasSuffix (s suffix : string) : bool :=
  (String.length suffix <=? String.length s)%nat
  && String.eqb (substring (String.length s - String.length suffix)
                           (String.length suffix) s) suffix.

(** [strings.TrimSuffix(s, suffix)]. *)
Definition TrimSuffix (s suffix : string) : string :=
  if HasSuffix s suffix
  then substring 0 (String.length s - String.length suffix) s
  else s.

(** [strings.ReplaceAll(s, old, new)] for a one-byte [old]. *)
Definition ReplaceAll (s : string) (old : ascii) (new : string) : string :=
  Join (Split s old) new.

(** [strings.IndexByte(s, c) >= 0]. *)
Fixpoint has_byte (c : ascii) (s : string) : bool :=
  match s with
  | EmptyString => false
  | String c' s' => Ascii.eqb c' c || has_byte c s'
  end.

(** The slice expressions [s[:n]] and [s[n:]] on a string that is long
    enough. *)
Definition slice_to (s : string) (n : nat) : string := substring 0 n s.
Definition slice_from (s : string) (n : nat) : string :=
  substring n (String.length s - n) s.

End GoStrings.
Import GoStrings.

Definition slash : ascii := "/"%char.
Definition newline : ascii := "010"%char.
Definition nl : string := String newline EmptyString.

(** ** [path/filepath] on Unix

    The repository calls [filepath.Join], [filepath.Rel] and
    [filepath.Dir] of the Go standard library. They are modelled for Unix
    ([filepath.Separator] is ['/'], no volume names) on the list of the
    path's elements, following the rules the library documents for
    [Clean]. *)

Module Filepath.

Definition Separator : ascii := slash.

Definition rooted (path : string) : bool :=
  match path with
  | String c _ => Ascii.eqb c Separator
  | EmptyString => false
  end.

(** One element of the path is consumed; [out] is the stack of the
    elements kept so far, the latest first. *)
Definition clean_step (abs : bool) (out : list string) (elem : string)
  : list string :=
  if String.eqb elem "" then out
  else if String.eqb elem "." then out
  else if String.eqb elem ".." then
    match out with
    | [] => if abs then [] else [".."]
    | top :: below =>
        if String.eqb top ".." then ".." :: out else below
    end
  else elem :: out.

Definition clean_elems (abs : bool) (elems : list string) : list string :=
  rev (fold_left (clean_step abs) elems []).

(** The path of the elements [kept]: behind the root for a rooted path,
    and ["."] for a relative path without elements. *)
Definition render (abs : bool) (kept : list string) : string :=
  if abs then String Separator (Join kept "/")
  else match kept with
       | [] => "."
       | _ => Join kept "/"
       end.

(** [filepath.Clean(path)]: empty elements and ["."] are dropped, [".."]
    removes the element before it, is dropped at the root and is kept at
    the head of a relative path. *)
Definition Clean (path : string) : string :=
  let abs := rooted path in
  render abs (clean_elems abs (Split path Separator)).

(** [filepath.Join(a, b)]: empty elements are ignored, the rest is joined
    with the separator and cleaned. *)
Definition Join2 (a b : string) : string :=
  if String.eqb a "" then
    if String.eqb b "" then "" else Clean b
  else Clean (a ++ "/" ++ b).

(** The elements [Rel] compares: those of a cleaned path, where ["/"] has
    the single (empty) element of its root. *)
Definition rel_elems (cleaned : string) : list string :=
  if String.eqb cleaned "" then []
  else if String.eqb cleaned "/" then [""]
  else Split cleaned Separator.

(** The common leading elements are dropped from both paths. *)
Fixpoint drop_common (base targ : list string)
  : list string * list string :=
  match base, targ with
  | b :: base', t :: targ' =>
      if String.eqb b t then drop_common base' targ' else (base, targ)
  | _, _ => (base, targ)
  end.

(** [filepath.Rel(basepath, targpath)]; [None] is its error. Both paths
    are cleaned; equal paths give ["."]; a rooted and a relative path
    cannot be related; otherwise the common leading elements are dropped,
    each element left of the base becomes [".."] (an error when the base
    would have to be left through a [".."] of its own), and the elements
    left of the target follow. *)
Definition Rel (basepath targpath : string) : option string :=
  let base := Clean basepath in
  let targ := Clean targpath in
  if String.eqb targ base then Some "."
  else
    let base := if String.eqb base "." then "" else base in
    if negb (Bool.eqb (rooted base) (rooted targ)) then None
    else
      match drop_common (rel_elems base) (rel_elems targ) with
      | ([], rest) => Some (Join rest "/")
      | (b :: up, rest) =>
          if String.eqb b ".."
             && match rest with [] => false | _ => true end
          then None
          else
            let ups := map (fun _ => "..") (b :: up) in
            Some (Join (ups ++ rest) "/")
      end.

(** An element [Clean] keeps where it stands. *)
Definition plain (elem : string) : Prop :=
  elem <> "" /\ elem <> "." /\ elem <> ".." /\ has_byte slash elem = false.

(** The stack of [clean_step]: plain elements above leading [".."]s, which
    a rooted path does not keep. *)
Definition stack_ok (abs : bool) (out : list string) : Prop :=
  exists normals n,
    out = (normals ++ repeat ".." n)%list
    /\ Forall plain normals
    /\ (abs = true -> n = O).

(** The part of the path up to and including its last separator. *)
Fixpoint dir_prefix (path : string) : string :=
  match path with
  | EmptyString => ""
  | String c rest =>
      if has_byte Separator path then String c (dir_prefix rest) else ""
  end.

(** [filepath.Dir(path)]. *)
Definition Dir (path : string) : string := Clean (dir_prefix path).

End Filepath.


(** ** Errors and results *)

(** A Go [error] is its message. *)
Definition error : Type := string.

(** A Go pair [(T, error)]: the value, or the error. *)
Inductive result (T : Type) : Type :=
| Ok (value : T)
| Err (err : error).
Arguments Ok {T} value.
Arguments Err {T} err.

(** ** Path translation *)

(** The conversion at the head of [GetSecret]: [dataPath] from
    [secretPath]. *)
Definition GetSecret_dataPath (secretPath : string) : string :=
  let parts := Split secretPath slash in
  if (2 <=? length parts)%nat && String.eqb (nth 1 parts "") "metadata"
  then nth 0 parts "" ++ "/data/" ++ Join (skipn 2 parts) "/"
  else secretPath.

(** The conversion at the head of [PutSecret]. *)
Definition PutSecret_dataPath (secretPath : string) : string :=
  let parts := Split secretPath slash in
  if (2 <=? length parts)%nat && String.eqb (nth 1 parts "") "metadata"
  then nth 0 parts "" ++ "/data/" ++ Join (skipn 2 parts) "/"
  else secretPath.

(** What the specification asks of the conversion: element 1 of the path
    becomes ["data"], every other element is kept. *)
Definition replace_element1 (path : string) : string :=
  match Split path slash with
  | engine :: _ :: rest => Join (engine :: "data" :: rest) "/"
  | _ => path
  end.

(** The path [pullSecretsRecursivelyHelper] passes to [GetSecret] for the
    key [key] listed at [currentPath]. *)
Definition leaf_secretPath (currentPath key : string) : string :=
  if (11 <=? String.length currentPath)%nat
     && String.eqb (slice_to currentPath 11) "kv/metadata"
  then "kv/data" ++ slice_from currentPath 11 ++ "/" ++ key
  else currentPath ++ "/" ++ key.

(** The data path the walker finally requests for that key. *)
Definition leaf_dataPath (currentPath key : string) : string :=
  GetSecret_dataPath (leaf_secretPath currentPath key).

(** [writeSecretToFile], up to the file path it writes to. *)
Definition writeSecretToFile_filePath
    (secretPath metadataPath outputDir : string) : result string :=
  let relativePath := TrimPrefix secretPath metadataPath in
  let relativePath := TrimPrefix relativePath "/" in
  if String.eqb relativePath "" then
    Err ("cannot determine file name for secret " ++ secretPath)
  else
    let parts := Split metadataPath slash in
    let targetDir :=
      if (2 <? length parts)%nat
      then Filepath.Join2 outputDir (Join (skipn 2 parts) "/")
      else outputDir in
    Ok (Filepath.Join2 targetDir (relativePath ++ ".yaml")).

(** The head of [PushSecretsFromFiles]: the engine, the sub-path and the
    directory the walk starts from. *)
Definition PushSecretsFromFiles_base (inputDir metadataPath : string)
  : result (string * string * string) :=
  let parts := Split metadataPath slash in
  if (length parts <? 2)%nat || negb (String.eqb (nth 1 parts "") "metadata")
  then Err ("invalid metadata path: " ++ metadataPath)
  else
    let kvEngine := nth 0 parts "" in
    if (2 <? length parts)%nat then
      let subPath := Join (skipn 2 parts) "/" in
      Ok (kvEngine, subPath, Filepath.Join2 inputDir subPath)
    else Ok (kvEngine, "", inputDir).

(** The walk callback of [PushSecretsFromFiles], from the file's path to
    the vault path it pushes to. *)
Definition PushSecretsFromFiles_vaultPath
    (kvEngine subPath baseDir filePath : string) : result string :=
  match Filepath.Rel baseDir filePath with
  | None =>
      Err ("failed to get relative path: Rel: can't make " ++ filePath
           ++ " relative to " ++ baseDir)
  | Some relativePath =>
      let secretPath := TrimSuffix relativePath ".yaml" in
      let secretPath :=
        ReplaceAll secretPath Filepath.Separator "/" in
      if negb (String.eqb subPath "")
      then Ok (kvEngine ++ "/metadata/" ++ subPath ++ "/" ++ secretPath)
      else Ok (kvEngine ++ "/metadata/" ++ secretPath)
  end.

(** A pulled file pushed back: the remote path of the secret [secretPath]
    after [writeSecretToFile] under [dir] and the callback of
    [PushSecretsFromFiles] started on the same directory and metadata
    path. *)
Definition pull_then_push (secretPath metadataPath dir : string)
  : result string :=
  match writeSecretToFile_filePath secretPath metadataPath dir with
  | Err e => Err e
  | Ok filePath =>
      match PushSecretsFromFiles_base dir metadataPath with
      | Err e => Err e
      | Ok (kvEngine, subPath, baseDir) =>
          PushSecretsFromFiles_vaultPath kvEngine subPath baseDir filePath
      end
  end.

(** ** Formatting verbs of [fmt] *)

Module Fmt.
Local Open Scope Z_scope.

(** [%d] of a non-negative [int]. *)
Definition d (n : nat) : string := NilZero.string_of_uint (Nat.to_uint n).

Definition hex_digit (v : Z) : ascii :=
  if v <? 10 then ascii_of_N (Z.to_N (48 + v))
  else ascii_of_N (Z.to_N (87 + v)).

(** The digits of [v] in base 16, the most significant first, in front of
    [acc]; [fuel] bounds their number. *)
Fixpoint hex_digits (fuel : nat) (v : Z) (acc : string) : string :=
  match fuel with
  | O => acc
  | S fuel' =>
      let acc' := String (hex_digit (v mod 16)) acc in
      if v / 16 =? 0 then acc' else hex_digits fuel' (v / 16) acc'
  end.

(** [%x] of a non-negative [int]: at most 16 digits. *)
Definition x (v : Z) : string := hex_digits 16 v "".

Fixpoint zeros (n : nat) : string :=
  match n with
  | O => ""
  | S n' => String "0"%char (zeros n')
  end.

(** [%07x]: the sign, if any, then zeros up to a total width of 7, then
    the digits. *)
Definition x07 (v : Z) : string :=
  if v <? 0 then
    let digits := x (- v) in
    "-" ++ zeros (6 - String.length digits)%nat ++ digits
  else
    let digits := x v in
    zeros (7 - String.length digits)%nat ++ digits.

(** A string of lower-case hexadecimal digits. *)
Definition is_hex_digit (c : ascii) : bool :=
  let n := Z.of_N (N_of_ascii c) in
  ((48 <=? n) && (n <=? 57)) || ((97 <=? n) && (n <=? 102)).

Fixpoint all_hex (s : string) : bool :=
  match s with
  | EmptyString => true
  | String c s' => is_hex_digit c && all_hex s'
  end.

End Fmt.

(** ** The short hash *)

Section ShortHash.
Local Open Scope Z_scope.

(** The 64-bit two's-complement value of an integer. *)
Definition wrap64 (z : Z) : Z := (z + 2 ^ 63) mod 2 ^ 64 - 2 ^ 63.

Definition RuneError : Z := 65533.

Definition byte_at (s : string) (i : nat) : Z :=
  match String.get i s with
  | Some c => Z.of_N (N_of_ascii c)
  | None => 0
  end.

Definition between (lo v hi : Z) : bool := (lo <=? v) && (v <=? hi).

(** The size and the range accepted for the second byte of the UTF-8
    sequence that starts with byte [b0]; [None] for a byte that starts
    none. *)
Definition utf8_first (b0 : Z) : option (nat * Z * Z) :=
  if between 194 b0 223 then Some (2%nat, 128, 191)
  else if b0 =? 224 then Some (3%nat, 160, 191)
  else if between 225 b0 236 then Some (3%nat, 128, 191)
  else if b0 =? 237 then Some (3%nat, 128, 159)
  else if between 238 b0 239 then Some (3%nat, 128, 191)
  else if b0 =? 240 then Some (4%nat, 144, 191)
  else if between 241 b0 243 then Some (4%nat, 128, 191)
  else if b0 =? 244 then Some (4%nat, 128, 143)
  else None.

(** [utf8.DecodeRuneInString] on a non-empty string: the rune and its
    width in bytes. *)
Definition DecodeRuneInString (s : string) : Z * nat :=
  let n := String.length s in
  let s0 := byte_at s 0 in
  if s0 <? 128 then (s0, 1%nat)
  else
    match utf8_first s0 with
    | None => (RuneError, 1%nat)
    | Some (sz, lo, hi) =>
        if (n <? sz)%nat then (RuneError, 1%nat)
        else
          let s1 := byte_at s 1 in
          if negb (between lo s1 hi) then (RuneError, 1%nat)
          else if (sz <=? 2)%nat then
            (Z.lor (Z.shiftl (Z.land s0 31) 6) (Z.land s1 63), 2%nat)
          else
            let s2 := byte_at s 2 in
            if negb (between 128 s2 191) then (RuneError, 1%nat)
            else if (sz <=? 3)%nat then
              (Z.lor (Z.lor (Z.shiftl (Z.land s0 15) 12)
                            (Z.shiftl (Z.land s1 63) 6))
                     (Z.land s2 63), 3%nat)
            else
              let s3 := byte_at s 3 in
              if negb (between 128 s3 191) then (RuneError, 1%nat)
              else
                (Z.lor (Z.lor (Z.lor (Z.shiftl (Z.land s0 7) 18)
                                     (Z.shiftl (Z.land s1 63) 12))
                              (Z.shiftl (Z.land s2 63) 6))
                       (Z.land s3 63), 4%nat)
    end.

(** The runes [for _, c := range content] yields; a rune takes at least
    one byte, so [fuel] above the length is never used up. *)
Fixpoint runes_from (fuel : nat) (content : string) : list Z :=
  match fuel with
  | O => []
  | S fuel' =>
      match content with
      | EmptyString => []
      | _ =>
          let '(c, width) := DecodeRuneInString content in
          c :: runes_from fuel' (slice_from content width)
      end
  end.

Definition runes (content : string) : list Z :=
  runes_from (String.length content) content.

(** The [hash] variable of [generateShortHash] after its loop. *)
Definition rolling_hash (content : string) : Z :=
  fold_left (fun hash c => wrap64 (hash * 31 + c)) (runes content) 0.

(** [generateShortHash]. Go's [%] truncates towards zero: [Z.rem]. *)
Definition generateShortHash (content : string) : string :=
  let hash := rolling_hash content in
  let hash := if hash <? 0 then wrap64 (- hash) else hash in
  Fmt.x07 (Z.rem hash 268435455).

End ShortHash.

(** ** The diff engine *)

(** [writeHunk]: the buffer [diff] after the hunk is appended. The
    arguments [end], [oldLen] and [newLen] are not used by the source. *)
Definition writeHunk (diff : string) (start : nat) (end_ : Z)
    (oldLen newLen : nat) (lines : list string) : string :=
  let '(oldCount, newCount) :=
    fold_left
      (fun counts line =>
         let '(oldCount, newCount) := counts in
         let oldCount :=
           if HasPrefix line "-" || HasPrefix line " "
           then S oldCount else oldCount in
         let newCount :=
           if HasPrefix line "+" || HasPrefix line " "
           then S newCount else newCount in
         (oldCount, newCount))
      lines (O, O) in
  let diff :=
    diff ++ "@@ -" ++ Fmt.d (start + 1) ++ "," ++ Fmt.d oldCount
         ++ " +" ++ Fmt.d (start + 1) ++ "," ++ Fmt.d newCount
         ++ " @@" ++ nl in
  fold_left (fun diff line => diff ++ line ++ nl) lines diff.

(** The local variables of [generateUnifiedDiff] that live across the
    iterations of its loop. *)
Record DiffState : Type := mkDiffState {
  diff : string;
  inHunk : bool;
  hunkStart : nat;
  hunkLines : list string
}.

(** [lines[i]] guarded by [i < len(lines)], [""] otherwise. *)
Definition line_at (lines : list string) (i : nat) : string :=
  if (i <? length lines)%nat then nth i lines "" else "".

(** The context collected when a hunk starts at index [i]. *)
Definition context_before (existingLines : list string) (hunkStart i : nat)
  : list string :=
  fold_left
    (fun hunkLines j =>
       if (j <? length existingLines)%nat
       then (hunkLines ++ [" " +:+ nth j existingLines ""])%list
       else hunkLines)
    (seq hunkStart (i - hunkStart)) [].

(** The removed and the added line of index [i], when there are any. *)
Definition change_lines (existingLines newLines : list string) (i : nat)
    (hunkLines : list string) : list string :=
  let existingLine := line_at existingLines i in
  let newLine := line_at newLines i in
  let hunkLines :=
    if (i <? length existingLines)%nat && negb (String.eqb existingLine "")
    then (hunkLines ++ ["-" +:+ existingLine])%list else hunkLines in
  if (i <? length newLines)%nat && negb (String.eqb newLine "")
  then (hunkLines ++ ["+" +:+ newLine])%list else hunkLines.

(** The number of lines at the end of [hunkLines] that start with a
    space. *)
Fixpoint leading_context (lines : list string) : nat :=
  match lines with
  | line :: rest =>
      if HasPrefix line " " then S (leading_context rest) else O
  | [] => O
  end.

Definition contextCount (hunkLines : list string) : nat :=
  leading_context (rev hunkLines).

(** One iteration of the loop of [generateUnifiedDiff]. *)
Definition diff_step (existingLines newLines : list string)
    (st : DiffState) (i : nat) : DiffState :=
  let existingLine := line_at existingLines i in
  let newLine := line_at newLines i in
  if negb (String.eqb existingLine newLine) then
    let st :=
      if negb (inHunk st) then
        let start := Nat.max 0 (i - 3) in
        mkDiffState (diff st) true start
                    (context_before existingLines start i)
      else st in
    mkDiffState (diff st) (inHunk st) (hunkStart st)
                (change_lines existingLines newLines i (hunkLines st))
  else if inHunk st then
    let lines := (hunkLines st ++ [" " +:+ existingLine])%list in
    let count := contextCount lines in
    if (3 <=? count)%nat then
      mkDiffState
        (writeHunk (diff st) (hunkStart st)
                   (Z.of_nat i - Z.of_nat count + 1)
                   (length existingLines) (length newLines)
                   (firstn (length lines - count + 3) lines))
        false (hunkStart st) lines
    else mkDiffState (diff st) true (hunkStart st) lines
  else st.

(** The four header lines [generateUnifiedDiff] writes first. *)
Definition diff_header (existing new filename : string) : string :=
  "diff --git a/" ++ filename ++ " b/" ++ filename ++ nl
  ++ "index " ++ generateShortHash existing ++ ".."
  ++ generateShortHash new ++ " 100644" ++ nl
  ++ "--- a/" ++ filename ++ nl
  ++ "+++ b/" ++ filename ++ nl.

(** The state when the loop of [generateUnifiedDiff] is left. *)
Definition diff_loop (existing new filename : string) : DiffState :=
  let existingLines := Split existing newline in
  let newLines := Split new newline in
  let maxLines := length existingLines in
  let maxLines :=
    if (maxLines <? length newLines)%nat then length newLines
    else maxLines in
  fold_left (diff_step existingLines newLines) (seq 0 maxLines)
            (mkDiffState (diff_header existing new filename) false O []).

(** [generateUnifiedDiff]. *)
Definition generateUnifiedDiff (existing new filename : string) : string :=
  if String.eqb existing new then ""
  else
    let existingLines := Split existing newline in
    let newLines := Split new newline in
    let maxLines := length existingLines in
    let maxLines :=
      if (maxLines <? length newLines)%nat then length newLines
      else maxLines in
    let st := diff_loop existing new filename in
    if inHunk st then
      writeHunk (diff st) (hunkStart st) (Z.of_nat maxLines)
                (length existingLines) (length newLines) (hunkLines st)
    else diff st.

(** The "new file" text [showDryRunDiff] builds when the secret cannot be
    fetched. *)
Definition new_file_header (vaultPath newYaml : string) : list string :=
  [ "diff --git a/" ++ vaultPath ++ " b/" ++ vaultPath ++ nl;
    "new file mode 100644" ++ nl;
    "index 0000000.." ++ generateShortHash newYaml ++ nl;
    "--- /dev/null" ++ nl;
    "+++ b/" ++ vaultPath ++ nl ].

Definition new_file_body (newYaml : string) : list string :=
  fold_left
    (fun written line =>
       if negb (String.eqb line "") || HasSuffix newYaml nl
       then (written ++ ["+" +:+ line +:+ nl])%list
       else written)
    (Split newYaml newline) [].

(** The strings written to the buffer [newFileDiff], in order. *)
Definition new_file_writes (vaultPath newYaml : string) : list string :=
  (new_file_header vaultPath newYaml ++ new_file_body newYaml)%list.

(** [newFileDiff.String()]. *)
Definition new_file_diff (vaultPath newYaml : string) : string :=
  fold_left String.append (new_file_writes vaultPath newYaml) "".

(** ** The client and its collaborators *)

(** What the program does to the outside, in order: a text printed on
    standard output, a call of [outputDiff], a directory made by
    [os.MkdirAll], a file written by [os.WriteFile], and the request of
    [PutSecret] for a data path. *)
Inductive Event (Payload : Type) : Type :=
| Printf (text : string)
| OutputDiff (diffContent : string)
| DirCreated (dir : string)
| FileWritten (filePath yamlData : string)
| PutRequest (dataPath : string) (secretData : Payload).
Arguments Printf {Payload} text.
Arguments OutputDiff {Payload} diffContent.
Arguments DirCreated {Payload} dir.
Arguments FileWritten {Payload} filePath yamlData.
Arguments PutRequest {Payload} dataPath secretData.

(** How a call ended: it returned, with its [error] or [nil]; it panicked;
    or the model's recursion bound was reached. *)
Inductive Outcome : Type :=
| Returned (err : option error)
| Panicked
| Exhausted.

(** An entry [filepath.Walk] passes to its callback. *)
Record WalkEntry : Type := mkWalkEntry {
  entry_path : string;
  entry_isDir : bool;
  entry_err : option error
}.

(** The collaborators of the client, for a type [Payload] of secret
    contents ([map[string]interface{}]).
    - The remote store: the request of [ListSecrets], of [GetSecret] and of
      [PutSecret] at a path, with the decoding of the response.
    - [yaml.Marshal] and [yaml.Unmarshal].
    - The file system: [os.MkdirAll], [os.WriteFile], [os.ReadFile],
      whether [os.Stat] finds the directory, and the entries
      [filepath.Walk] visits from a root, in its order.
    - [range]: the order in which a map yields its entries, which Go leaves
      unspecified. *)
Record World (Payload : Type) : Type := mkWorld {
  ListSecrets : string -> result (list string);
  httpGet : string -> result Payload;
  httpPost : string -> Payload -> option error;
  yamlMarshal : Payload -> result string;
  yamlUnmarshal : string -> result Payload;
  MkdirAll : string -> option error;
  WriteFile : string -> string -> option error;
  ReadFile : string -> result string;
  dir_exists : string -> bool;
  walk_entries : string -> list WalkEntry;
  range : gmap string Payload -> list (string * Payload)
}.
Arguments mkWorld {Payload}.
Arguments ListSecrets {Payload} w path : rename.
Arguments httpGet {Payload} w dataPath : rename.
Arguments httpPost {Payload} w dataPath secretData : rename.
Arguments yamlMarshal {Payload} w data : rename.
Arguments yamlUnmarshal {Payload} w yamlData : rename.
Arguments MkdirAll {Payload} w dir : rename.
Arguments WriteFile {Payload} w filePath yamlData : rename.
Arguments ReadFile {Payload} w filePath : rename.
Arguments dir_exists {Payload} w dir : rename.
Arguments walk_entries {Payload} w root : rename.
Arguments range {Payload} w secrets : rename.

Section Client.

Context {Payload : Type} (w : World Payload).

Local Abbreviation Events := (list (Event Payload)).

(** [GetSecret]. *)
Definition GetSecret (secretPath : string) : Events * result Payload :=
  let dataPath := GetSecret_dataPath secretPath in
  ([Printf ("Debug: Getting secret from path: " ++ secretPath
            ++ " (converted to: " ++ dataPath ++ ")" ++ nl)],
   httpGet w dataPath).

(** [PutSecret]. *)
Definition PutSecret (secretPath : string) (secretData : Payload)
  : Events * option error :=
  let dataPath := PutSecret_dataPath secretPath in
  ([PutRequest dataPath secretData], httpPost w dataPath secretData).

(** The bytes of [yaml.Marshal] when its error is dropped. *)
Definition marshal_bytes (data : Payload) : string :=
  match yamlMarshal w data with
  | Ok yamlData => yamlData
  | Err _ => ""
  end.

(** The [diffOutput] of [showDryRunDiff]. *)
Definition dry_run_diff (vaultPath : string) (existing : result Payload)
    (newData : Payload) : string :=
  let newYaml := marshal_bytes newData in
  match existing with
  | Err _ => new_file_diff vaultPath newYaml
  | Ok existingData =>
      generateUnifiedDiff (marshal_bytes existingData) newYaml vaultPath
  end.

(** [showDryRunDiff]. *)
Definition showDryRunDiff (vaultPath : string) (newData : Payload)
  : Events * option error :=
  let '(fetched, existing) := GetSecret vaultPath in
  let diffOutput := dry_run_diff vaultPath existing newData in
  ((fetched ++ if negb (String.eqb diffOutput "")
               then [OutputDiff diffOutput] else [])%list,
   None).

(** *** Pull *)

Record PullState : Type := mkPullState {
  secrets : gmap string Payload;
  out : Events
}.

(** [key[len(key)-1] == '/'] on a non-empty key. *)
Definition is_folder (key : string) : bool :=
  match String.get (String.length key - 1) key with
  | Some c => Ascii.eqb c slash
  | None => false
  end.

(** The path the walker descends to for the folder key [key]. *)
Definition folderPath (currentPath key : string) : string :=
  currentPath ++ "/" ++ slice_to key (String.length key - 1) ++ "/metadata".

(** The body of the loop of [pullSecretsRecursivelyHelper] over the keys
    listed at [currentPath]; [recurse] is the helper itself. *)
Fixpoint pull_keys (recurse : string -> PullState -> Outcome * PullState)
    (currentPath : string) (keys : list string) (st : PullState)
  : Outcome * PullState :=
  match keys with
  | [] => (Returned None, st)
  | key :: rest =>
      let fullPath := currentPath ++ "/" ++ key in
      if String.eqb key "" then (Panicked, st)
      else if is_folder key then
        match recurse (folderPath currentPath key) st with
        | (Returned None, st) => pull_keys recurse currentPath rest st
        | stopped => stopped
        end
      else
        let secretPath := leaf_secretPath currentPath key in
        let '(fetched, secretData) := GetSecret secretPath in
        let st := mkPullState (secrets st) (out st ++ fetched) in
        match secretData with
        | Err err =>
            pull_keys recurse currentPath rest
              (mkPullState (secrets st)
                 (out st ++ [Printf ("Warning: Failed to get secret "
                                     ++ fullPath ++ ": " ++ err ++ nl)]))
        | Ok secretData =>
            pull_keys recurse currentPath rest
              (mkPullState (<[fullPath := secretData]> (secrets st))
                           (out st))
        end
  end.

(** [pullSecretsRecursivelyHelper]; [fuel] bounds the depth of the
    recursion. *)
Fixpoint pullSecretsRecursivelyHelper (fuel : nat) (currentPath : string)
    (st : PullState) : Outcome * PullState :=
  match fuel with
  | O => (Exhausted, st)
  | S fuel' =>
      match ListSecrets w currentPath with
      | Err err =>
          (Returned (Some ("failed to list secrets at " ++ currentPath
                           ++ ": " ++ err)), st)
      | Ok keys =>
          pull_keys (pullSecretsRecursivelyHelper fuel') currentPath keys st
      end
  end.



(** The paths the walker lists from [basePath]: the base path itself,
    and the folder path of a folder key that [ListSecrets] answered at a
    path the walker lists. *)
Inductive reached (basePath : string) : string -> Prop :=
| reached_base : reached basePath basePath
| reached_folder (path : string) (keys : list string) (key : string) :
    reached basePath path ->
    ListSecrets w path = Ok keys ->
    In key keys ->
    key <> "" ->
    is_folder key = true ->
    reached basePath (folderPath path key).

(** [PullSecretsRecursively]. *)
Definition PullSecretsRecursively (fuel : nat) (basePath : string)
  : Outcome * PullState :=
  pullSecretsRecursivelyHelper fuel basePath (mkPullState ∅ []).

(** [writeSecretToFile]. *)
Definition writeSecretToFile (secretPath : string) (secretData : Payload)
    (metadataPath outputDir : string) : Events * option error :=
  match writeSecretToFile_filePath secretPath metadataPath outputDir with
  | Err err => ([], Some err)
  | Ok filePath =>
      let dir := Filepath.Dir filePath in
      match MkdirAll w dir with
      | Some err =>
          ([], Some ("failed to create directory " ++ dir ++ ": " ++ err))
      | None =>
          match yamlMarshal w secretData with
          | Err err =>
              ([DirCreated dir],
               Some ("failed to convert to YAML: " ++ err))
          | Ok yamlData =>
              match WriteFile w filePath yamlData with
              | Some err =>
                  ([DirCreated dir],
                   Some ("failed to write file " ++ filePath ++ ": "
                         ++ err))
              | None =>
                  ([DirCreated dir; FileWritten filePath yamlData;
                    Printf ("Written: " ++ filePath ++ nl)], None)
              end
          end
      end
  end.

(** The loop of [PullSecretsToFiles] over the pulled secrets. *)
Fixpoint write_secrets (entries : list (string * Payload))
    (basePath outputDir : string) : Events :=
  match entries with
  | [] => []
  | (secretPath, secretData) :: rest =>
      let '(written, err) :=
        writeSecretToFile secretPath secretData basePath outputDir in
      let warned :=
        match err with
        | Some err =>
            [Printf ("Warning: Failed to write secret " ++ secretPath
                     ++ ": " ++ err ++ nl)]
        | None => []
        end in
      (written ++ warned ++ write_secrets rest basePath outputDir)%list
  end.

(** [PullSecretsToFiles]. *)
Definition PullSecretsToFiles (fuel : nat) (basePath outputDir : string)
  : Outcome * Events :=
  match PullSecretsRecursively fuel basePath with
  | (Returned (Some err), st) =>
      (Returned (Some ("failed to pull secrets: " ++ err)), out st)
  | (Returned None, st) =>
      (Returned None,
       (out st ++ write_secrets (range w (secrets st)) basePath outputDir)%list)
  | (stopped, st) => (stopped, out st)
  end.

(** *** Push *)

(** The callback [PushSecretsFromFiles] gives to [filepath.Walk]. *)
Definition push_entry (dryRun : bool) (kvEngine subPath baseDir : string)
    (entry : WalkEntry) : Events * option error :=
  let filePath := entry_path entry in
  match entry_err entry with
  | Some err => ([], Some err)
  | None =>
      if entry_isDir entry || negb (HasSuffix filePath ".yaml")
      then ([], None)
      else
        match ReadFile w filePath with
        | Err err =>
            ([], Some ("failed to read file " ++ filePath ++ ": " ++ err))
        | Ok yamlData =>
            match yamlUnmarshal w yamlData with
            | Err err =>
                ([], Some ("failed to parse YAML in " ++ filePath ++ ": "
                           ++ err))
            | Ok secretData =>
                match PushSecretsFromFiles_vaultPath
                        kvEngine subPath baseDir filePath with
                | Err err => ([], Some err)
                | Ok vaultPath =>
                    if dryRun then showDryRunDiff vaultPath secretData
                    else
                      let '(requested, err) :=
                        PutSecret vaultPath secretData in
                      (Printf ("Pushing: " ++ vaultPath ++ nl)
                         :: requested, err)
                end
            end
        end
  end.

(** [filepath.Walk] over the entries it visits: the first error the
    callback returns ends the walk and is returned. (The callback above
    never returns [filepath.SkipDir].) *)
Fixpoint Walk (fn : WalkEntry -> Events * option error)
    (entries : list WalkEntry) : Events * option error :=
  match entries with
  | [] => ([], None)
  | entry :: rest =>
      match fn entry with
      | (done, Some err) => (done, Some err)
      | (done, None) =>
          let '(later, err) := Walk fn rest in
          ((done ++ later)%list, err)
      end
  end.

(** [PushSecretsFromFiles]. *)
Definition PushSecretsFromFiles (inputDir metadataPath : string)
    (dryRun : bool) : Events * option error :=
  match PushSecretsFromFiles_base inputDir metadataPath with
  | Err err => ([], Some err)
  | Ok (kvEngine, subPath, baseDir) =>
      if negb (dir_exists w baseDir) then
        ([], Some ("directory " ++ baseDir
                   ++ " does not exist (derived from vault path "
                   ++ metadataPath ++ ")"))
      else
        Walk (push_entry dryRun kvEngine subPath baseDir)
             (walk_entries w baseDir)
  end.

End Client.

(** ** Reading the diff text *)


(** Whether the lines of index [i] differ: the comparison of
    [generateUnifiedDiff], by position. *)
Definition differ (existingLines newLines : list string) (i : nat) : bool :=
  negb (String.eqb (line_at existingLines i) (line_at newLines i)).

(** What a hunk holds for the index [i] once it has started: the change
    of a differing index, the line itself behind a space otherwise. *)
Definition index_lines (existingLines newLines : list string) (i : nat)
  : list string :=
  if differ existingLines newLines i
  then change_lines existingLines newLines i []
  else [" " +:+ line_at existingLines i].

(** The lines of the hunk whose first differing index is [first] and
    which ends before the index [stop]. *)
Definition hunk_lines (existingLines newLines : list string)
    (first stop : nat) : list string :=
  (context_before existingLines (first - 3) first
   ++ flat_map (index_lines existingLines newLines)
               (seq first (stop - first)))%list.

Definition is_old_line (line : string) : bool :=
  HasPrefix line "-" || HasPrefix line " ".

Definition is_new_line (line : string) : bool :=
  HasPrefix line "+" || HasPrefix line " ".

(** A hunk as it is printed: its header, with the number of lines of each
    side, and its lines. *)
Definition render_hunk (start : nat) (lines : list string) : string :=
  "@@ -" ++ Fmt.d (start + 1) ++ ","
  ++ Fmt.d (length (List.filter is_old_line lines))
  ++ " +" ++ Fmt.d (start + 1) ++ ","
  ++ Fmt.d (length (List.filter is_new_line lines))
  ++ " @@" ++ nl
  ++ fold_right (fun line rest => line ++ nl ++ rest) "" lines.

(** The hunks of the index ranges [ranges], one after the other. *)
Definition render_hunks (existingLines newLines : list string)
    (ranges : list (nat * nat)) : string :=
  fold_right
    (fun range rest =>
       render_hunk (fst range - 3)
                   (hunk_lines existingLines newLines
                               (fst range) (snd range))
       ++ rest)
    "" ranges.

(** The indices from [first] to [stop] make a hunk of the positional
    diff of [maxLines] lines: [first] differs, behind up to three indices
    that do not; the last differing index [last] of the hunk is followed
    by three indices that do not differ, or by fewer up to the end of the
    input; and between [first] and [last] no three indices in a row are
    the same on both sides. *)
Definition hunk_range (existingLines newLines : list string)
    (maxLines first stop : nat) : Prop :=
  differ existingLines newLines first = true
  /\ (forall j, first - 3 <= j < first ->
                differ existingLines newLines j = false)
  /\ stop <= maxLines
  /\ exists last,
      first <= last < stop
      /\ differ existingLines newLines last = true
      /\ (forall j, last < j < stop ->
                    differ existingLines newLines j = false)
      /\ (stop = last + 4 \/ (stop = maxLines /\ stop < last + 4))
      /\ (forall j, first <= j -> j + 2 < last ->
                    differ existingLines newLines j
                    || differ existingLines newLines (j + 1)
                    || differ existingLines newLines (j + 2) = true).


(** The hunk that is open before the index [i] is visited: it started at
    [first], its last differing index is [last], and fewer than three
    indices since do not differ. *)
Definition open_range (existingLines newLines : list string)
    (first last i : nat) : Prop :=
  first <= last < i
  /\ differ existingLines newLines first = true
  /\ differ existingLines newLines last = true
  /\ (forall j, last < j < i -> differ existingLines newLines j = false)
  /\ i < last + 4
  /\ (forall j, first - 3 <= j < first ->
                differ existingLines newLines j = false)
  /\ (forall j, first <= j -> j + 2 < last ->
                differ existingLines newLines j
                || differ existingLines newLines (j + 1)
                || differ existingLines newLines (j + 2) = true).

(** The index [k] lies in one of the hunks. *)
Definition covered (ranges : list (nat * nat)) (k : nat) : Prop :=
  Exists (fun range => fst range <= k < snd range) ranges.

(** What holds of the state of [generateUnifiedDiff] before its loop
    visits the index [i]: the buffer holds the header and the hunks closed
    so far, and the open hunk, if any, holds the lines of its indices up
    to [i]. *)
Definition diff_invariant (existingLines newLines : list string)
    (maxLines : nat) (header : string) (i : nat) (st : DiffState) : Prop :=
  exists ranges,
    diff st = header ++ render_hunks existingLines newLines ranges
    /\ Forall (fun range => hunk_range existingLines newLines maxLines
                                       (fst range) (snd range)) ranges
    /\ if inHunk st then
         exists first last,
           hunkStart st = first - 3
           /\ hunkLines st = hunk_lines existingLines newLines first i
           /\ open_range existingLines newLines first last i
           /\ (forall k, k < i -> differ existingLines newLines k = true ->
                         first <= k \/ covered ranges k)
       else
         (forall j, i - 3 <= j < i ->
                    differ existingLines newLines j = false)
         /\ (forall k, k < i -> differ existingLines newLines k = true ->
                       covered ranges k).

(** The ranges follow one another: each ends before the next starts. *)
Fixpoint ordered_ranges (ranges : list (nat * nat)) : Prop :=
  match ranges with
  | [] => True
  | range :: rest =>
      Forall (fun later => snd range <= fst later) rest
      /\ ordered_ranges rest
  end.

(** The invariant of the loop of [generateUnifiedDiff] with the order of
    the hunks: those closed so far follow one another and end before the
    open hunk starts, or before [i] when none is open. *)
Definition diff_invariant_ordered (existingLines newLines : list string)
    (maxLines : nat) (header : string) (i : nat) (st : DiffState) : Prop :=
  exists ranges,
    diff st = header ++ render_hunks existingLines newLines ranges
    /\ Forall (fun range => hunk_range existingLines newLines maxLines
                                       (fst range) (snd range)) ranges
    /\ ordered_ranges ranges
    /\ if inHunk st then
         exists first last,
           hunkStart st = first - 3
           /\ hunkLines st = hunk_lines existingLines newLines first i
           /\ open_range existingLines newLines first last i
           /\ (forall k, k < i -> differ existingLines newLines k = true ->
                         first <= k \/ covered ranges k)
           /\ Forall (fun range => snd range <= first) ranges
       else
         (forall j, i - 3 <= j < i ->
                    differ existingLines newLines j = false)
         /\ (forall k, k < i -> differ existingLines newLines k = true ->
                       covered ranges k)
         /\ Forall (fun range => snd range <= i) ranges.

(** [count] newline characters. *)
Fixpoint newlines (count : nat) : string :=
  match count with
  | O => ""
  | S count' => String newline (newlines count')
  end.

(** The path below a base after descending through [folders]: the walker
    appends the folder and ["/metadata"] at every level. *)
Definition nested (folders : list string) : string :=
  fold_right (fun folder rest => "/" ++ folder ++ "/metadata" ++ rest)
             "" folders.

(** The kinds of events: a request that changes the store, a change of
    the local files, a diff shown. *)
Definition is_put_request {Payload : Type} (event : Event Payload) : bool :=
  match event with
  | PutRequest _ _ => true
  | _ => false
  end.

Definition is_file_event {Payload : Type} (event : Event Payload) : bool :=
  match event with
  | DirCreated _ | FileWritten _ _ => true
  | _ => false
  end.

Definition is_diff_event {Payload : Type} (event : Event Payload) : bool :=
  match event with
  | OutputDiff _ => true
  | _ => false
  end.

(** The entries of a walk the callback of [PushSecretsFromFiles] does
    not pass over: those that carry an error, and the files whose name
    ends in [.yaml]. *)
Definition push_candidate (entry : WalkEntry) : bool :=
  match entry_err entry with
  | Some _ => true
  | None => negb (entry_isDir entry) && HasSuffix (entry_path entry) ".yaml"
  end.

(** What an event of a push may be, by the mode of the push: no change of
    a local file, a request to the store only outside a dry run, a diff
    only in a dry run. *)
Definition push_event_allowed {Payload : Type} (dryRun : bool)
    (event : Event Payload) : Prop :=
  is_file_event event = false
  /\ (is_put_request event = true -> dryRun = false)
  /\ (is_diff_event event = true -> dryRun = true).

(** Whether a sequence of events shows a diff. *)
Definition shows_diff {Payload : Type} (events : list (Event Payload))
  : bool :=
  existsb (fun event => match event with
                        | OutputDiff _ => true
                        | _ => false
                        end) events.

(** ** A small world

    A store with the engine [kv]: the secret [db] and the folder [app]
    with the secret [config]; the key [broken] is listed and cannot be
    read. The engine [team] lists a folder [gone] that cannot be listed.
    Payloads are lists of keys and values. Below ["in"] the files [a] to
    [e] are found, of which [c] cannot be read; below ["bad"] the file [d]
    cannot be decoded. *)

Module Example.

Definition Payload : Type := list (string * string).

Definition marshal (data : Payload) : result string :=
  Ok (fold_right (fun kv rest => fst kv ++ ": " ++ snd kv ++ nl ++ rest)
                 "" data).

Definition db : Payload := [("user", "admin")].
Definition config : Payload := [("port", "8200"); ("tls", "true")].

Definition list_secrets (path : string) : result (list string) :=
  if String.eqb path "kv/metadata" then Ok ["app/"; "broken"; "db"]
  else if String.eqb path "kv/metadata/app/metadata" then Ok ["config"]
  else if String.eqb path "team/metadata" then Ok ["a"; "gone/"; "z"]
  else Err "HTTP 404: ".

Definition http_get (dataPath : string) : result Payload :=
  if String.eqb dataPath "kv/data/db" then Ok db
  else if String.eqb dataPath "kv/data/app/metadata/config" then Ok config
  else if String.eqb dataPath "team/data/a" then Ok db
  else if String.eqb dataPath "team/data/z" then Ok db
  else Err "HTTP 404: ".

Definition http_post (dataPath : string) (data : Payload) : option error :=
  if String.eqb dataPath "kv/data/b" then Some "HTTP 403: permission denied"
  else None.

Definition unmarshal (yamlData : string) : result Payload :=
  if String.eqb yamlData ("user: admin" ++ nl) then Ok db
  else Err "yaml: did not find expected ',' or ']'".

Definition write_file (filePath yamlData : string) : option error :=
  if String.eqb filePath "out/db.yaml" then Some "permission denied"
  else None.

Definition read_file (filePath : string) : result string :=
  if String.eqb filePath "in/c.yaml" then Err "permission denied"
  else if String.eqb filePath "bad/d.yaml" then Ok "user: [admin"
  else Ok ("user: admin" ++ nl).

Definition entries (root : string) : list WalkEntry :=
  if String.eqb root "bad" then
    [ mkWalkEntry root true None;
      mkWalkEntry (root ++ "/d.yaml") false None;
      mkWalkEntry (root ++ "/e.yaml") false None ]
  else
    [ mkWalkEntry root true None;
      mkWalkEntry (root ++ "/a.yaml") false None;
      mkWalkEntry (root ++ "/b.yaml") false None;
      mkWalkEntry (root ++ "/c.yaml") false None;
      mkWalkEntry (root ++ "/d.yaml") false None;
      mkWalkEntry (root ++ "/e.yaml") false None ].

Definition world : World Payload :=
  mkWorld list_secrets http_get http_post marshal unmarshal
          (fun _ => None) write_file read_file (fun _ => true) entries
          map_to_list.

(** An environment without any variable set. *)
Definition getenv_empty (name : string) : string := "".

End Example.

(** ** The preview sink *)

(** The package variables [diffTool] and [diffToolDetected]. *)
Record ToolState : Type := mkToolState {
  diffTool : string;
  diffToolDetected : bool
}.

(** The tools [detectDiffTool] looks for, in its order of preference. *)
Definition tools : list string := ["delta"; "difftastic"; "diff-so-fancy"].

(** The loop of [detectDiffTool]: the first tool [exec.LookPath] finds,
    [""] when it finds none. *)
Fixpoint first_tool (lookPath : string -> bool) (candidates : list string)
  : string :=
  match candidates with
  | [] => ""
  | tool :: rest => if lookPath tool then tool else first_tool lookPath rest
  end.

(** [detectDiffTool]; [lookPath tool] says whether [exec.LookPath] finds
    the tool when it is asked. *)
Definition detectDiffTool (lookPath : string -> bool) (st : ToolState)
  : string * ToolState :=
  if diffToolDetected st then (diffTool st, st)
  else
    let tool := first_tool lookPath tools in
    (tool, mkToolState tool true).

(** What reaches standard output: a text the program prints itself, or
    the output of the external tool. *)
Inductive Shown : Type :=
| Print (text : string)
| ToolOutput (text : string).

(** The command [outputDiff] builds for a tool: its name and arguments. *)
Definition tool_command (tool : string) : option (string * list string) :=
  if String.eqb tool "delta"
  then Some ("delta", ["--no-gitconfig"; "--side-by-side"])
  else if String.eqb tool "difftastic"
  then Some ("difftastic", ["--display=side-by-side"])
  else if String.eqb tool "diff-so-fancy"
  then Some ("diff-so-fancy", [])
  else None.

(** [outputDiff]; [run name args stdin] is [cmd.Run()]: what the command
    writes on standard output and its error. *)
Definition outputDiff (lookPath : string -> bool)
    (run : string -> list string -> string -> string * option error)
    (diffContent : string) (st : ToolState) : list Shown * ToolState :=
  let '(tool, st) := detectDiffTool lookPath st in
  if String.eqb tool "" then ([Print diffContent], st)
  else
    match tool_command tool with
    | None => ([Print diffContent], st)
    | Some (name, args) =>
        let '(output, err) := run name args diffContent in
        match err with
        | Some _ => ([ToolOutput output; Print diffContent], st)
        | None => ([ToolOutput output], st)
        end
    end.

(** ** The command line of [src/cli.go] *)

Module Cli.

(** How a command ends: it returns; it prints its usage and exits; it
    ends in [log.Fatal] with a message; the pull panicked; or the model's
    recursion bound was reached. *)
Inductive Ending : Type :=
| Finished
| ExitUsage
| Fatal (message : string)
| Panic
| Unbounded.

(** [getVaultClient], up to the address and the token it reads from the
    environment; [Err] is the message of its [log.Fatal]. *)
Definition getVaultClient (getenv : string -> string)
  : result (string * string) :=
  let vaultAddr := getenv "VAULT_ADDR" in
  if String.eqb vaultAddr "" then
    Err "VAULT_ADDR environment variable is required"
  else
    let vaultToken := getenv "VAULT_TOKEN" in
    if String.eqb vaultToken "" then
      Err "VAULT_TOKEN environment variable is required"
    else Ok (vaultAddr, vaultToken).

(** The full metadata path the handlers construct. *)
Definition metadataPath (kvEngine subPath : string) : string :=
  if String.eqb subPath "" then kvEngine ++ "/metadata"
  else kvEngine ++ "/metadata/" ++ subPath.

Definition pathDesc (kvEngine subPath : string) : string :=
  if negb (String.eqb subPath "") then kvEngine ++ "/" ++ subPath
  else kvEngine.

(** An argument that "looks like a directory path". *)
Definition looks_like_dir (arg : string) : bool :=
  HasPrefix arg "./" || HasPrefix arg "/" || HasPrefix arg "~".

(** The variables [subPath], [inputDir] and [dryRun] of
    [handlePushCommand]. *)
Record PushArgs : Type := mkPushArgs {
  subPath : string;
  inputDir : string;
  dryRun : bool
}.

(** One iteration of the loop of [handlePushCommand] over its
    arguments. *)
Definition push_arg (parsed : PushArgs) (arg : string) : PushArgs :=
  if String.eqb arg "--dry-run"
  then mkPushArgs (subPath parsed) (inputDir parsed) true
  else if looks_like_dir arg
  then mkPushArgs (subPath parsed) arg (dryRun parsed)
  else if negb (HasPrefix arg "--")
  then mkPushArgs arg (inputDir parsed) (dryRun parsed)
  else parsed.

(** The arguments of [handlePushCommand] behind the namespace, parsed,
    with the default input directory. *)
Definition push_args (rest : list string) : PushArgs :=
  let parsed := fold_left push_arg rest (mkPushArgs "" "" false) in
  if String.eqb (inputDir parsed) ""
  then mkPushArgs (subPath parsed) "./vault-secrets" (dryRun parsed)
  else parsed.

(** The arguments of [handlePullCommand] behind the namespace: the
    sub-path and the output directory. *)
Definition pull_args (rest : list string) : string * string :=
  let '(subPath, outputDir) :=
    match rest with
    | [] => ("", "")
    | arg1 :: more =>
        if looks_like_dir arg1 then ("", arg1)
        else (arg1, match more with
                    | arg2 :: _ => arg2
                    | [] => ""
                    end)
    end in
  (subPath, if String.eqb outputDir "" then "./vault-secrets" else outputDir).

(** The loop of [main] over [os.Args[1:]], which stops at the first
    argument that does not start with [-]: the arguments it gives to
    [flag.CommandLine.Parse] ([None] when the loop ends without that
    call), and the variables [command] and [commandArgs] behind the loop,
    which are empty when no such argument was met. *)
Fixpoint find_command (args : list string)
  : option (list string) * string * list string :=
  match args with
  | [] => (None, "", [])
  | arg :: rest =>
      if negb (HasPrefix arg "-") then (Some [], arg, rest)
      else
        let '(flags, command, commandArgs) := find_command rest in
        (option_map (cons arg) flags, command, commandArgs)
  end.

(** What [main] goes on to do: it prints its usage and exits; the flag
    set ended the process; it reports that no command was specified and
    exits; it calls a handler with [commandArgs], for the value of
    [*kvEngine]; or it reports an unknown command and exits. *)
Inductive Dispatch : Type :=
| Usage
| FlagExit
| NoCommand
| RunList (kvEngine : string) (commandArgs : list string)
| RunPull (kvEngine : string) (commandArgs : list string)
| RunPush (kvEngine : string) (commandArgs : list string)
| UnknownCommand (command : string).

(** [main] on [os.Args[1:]]. [parse flags] is
    [flag.CommandLine.Parse(flags)]: the value of [*kvEngine] behind the
    call, or [None] when the flag set ends the process, as it does on an
    error. Without the call [*kvEngine] keeps its default. *)
Definition main (parse : list string -> option string)
    (args : list string) : Dispatch :=
  match args with
  | [] => Usage
  | _ =>
      let '(flags, command, commandArgs) := find_command args in
      let kvEngine :=
        match flags with
        | Some flags => parse flags
        | None => Some "kv"
        end in
      match kvEngine with
      | None => FlagExit
      | Some kvEngine =>
          if String.eqb command "" then NoCommand
          else if String.eqb command "list"
          then RunList kvEngine commandArgs
          else if String.eqb command "pull"
          then RunPull kvEngine commandArgs
          else if String.eqb command "push"
          then RunPush kvEngine commandArgs
          else UnknownCommand command
      end
  end.

Section Handlers.

Context {Payload : Type}.

(** [NewVaultClient(address, token, namespace)] with the store, the
    encoder and the file system behind it. *)
Variable connect : string -> string -> string -> World Payload.
Variable getenv : string -> string.

(** [*kvEngine], the value of the flag [--kv-engine]. *)
Variable kvEngine : string.

(** [handlePushCommand]. *)
Definition handlePushCommand (args : list string)
  : list (Event Payload) * Ending :=
  match args with
  | [] =>
      ([Printf ("Usage: vaultsync [--kv-engine=name] push <namespace> "
                ++ "[path] [input-dir] [--dry-run]" ++ nl);
        Printf ("Example: vaultsync push my-namespace --dry-run" ++ nl);
        Printf ("Example: vaultsync push my-namespace app ./my-secrets"
                ++ nl);
        Printf ("If input-dir is not specified, defaults to "
                ++ "'./vault-secrets'" ++ nl);
        Printf ("Use --dry-run to see what would be changed without "
                ++ "actually pushing" ++ nl)],
       ExitUsage)
  | namespace :: rest =>
      let parsed := push_args rest in
      let path := metadataPath kvEngine (subPath parsed) in
      match getVaultClient getenv with
      | Err message => ([], Fatal message)
      | Ok (vaultAddr, vaultToken) =>
          let client := connect vaultAddr vaultToken namespace in
          let desc := pathDesc kvEngine (subPath parsed) in
          let banner :=
            if dryRun parsed then
              Printf ("DRY RUN: Showing what would be changed when pushing "
                      ++ "from " ++ inputDir parsed ++ " to " ++ desc
                      ++ " in namespace " ++ namespace ++ "..." ++ nl)
            else
              Printf ("Pushing secrets from " ++ inputDir parsed ++ " to "
                      ++ desc ++ " in namespace " ++ namespace ++ "..."
                      ++ nl) in
          let '(events, err) :=
            PushSecretsFromFiles client (inputDir parsed) path
                                 (dryRun parsed) in
          match err with
          | Some err =>
              (banner :: events, Fatal ("Failed to push secrets: " ++ err))
          | None =>
              ((banner :: events
                ++ [if dryRun parsed then
                      Printf (nl ++ "Dry run completed! Use without "
                              ++ "--dry-run to actually push changes." ++ nl)
                    else
                      Printf (nl ++ "Completed! Secrets have been pushed "
                              ++ "to Vault." ++ nl)])%list,
               Finished)
          end
      end
  end.

(** [handlePullCommand]; [fuel] bounds the depth of the walk. *)
Definition handlePullCommand (fuel : nat) (args : list string)
  : list (Event Payload) * Ending :=
  match args with
  | [] =>
      ([Printf ("Usage: vaultsync [--kv-engine=name] pull <namespace> "
                ++ "[path] [output-dir]" ++ nl);
        Printf ("Example: vaultsync pull my-namespace" ++ nl);
        Printf ("Example: vaultsync pull my-namespace app ./secrets" ++ nl);
        Printf ("If output-dir is not specified, defaults to "
                ++ "'./vault-secrets'" ++ nl)],
       ExitUsage)
  | namespace :: rest =>
      let '(subPath, outputDir) := pull_args rest in
      let path := metadataPath kvEngine subPath in
      match getVaultClient getenv with
      | Err message => ([], Fatal message)
      | Ok (vaultAddr, vaultToken) =>
          let client := connect vaultAddr vaultToken namespace in
          let banner :=
            Printf ("Pulling all secrets recursively from "
                    ++ pathDesc kvEngine subPath ++ " in namespace "
                    ++ namespace ++ " to " ++ outputDir ++ "..." ++ nl) in
          match PullSecretsToFiles client fuel path outputDir with
          | (Returned (Some err), events) =>
              (banner :: events,
               Fatal ("Failed to pull secrets to files: " ++ err))
          | (Returned None, events) =>
              ((banner :: events
                ++ [Printf (nl ++ "Completed! Secrets have been saved to "
                            ++ outputDir ++ " as YAML files" ++ nl)])%list,
               Finished)
          | (Panicked, events) => (banner :: events, Panic)
          | (Exhausted, events) => (banner :: events, Unbounded)
          end
      end
  end.

(** [handleListCommand]. *)
Definition handleListCommand (args : list string)
  : list (Event Payload) * Ending :=
  match args with
  | [] =>
      ([Printf ("Usage: vaultsync [--kv-engine=name] list <namespace> "
                ++ "[path]" ++ nl);
        Printf ("Example: vaultsync list my-namespace" ++ nl);
        Printf ("Example: vaultsync list my-namespace app" ++ nl)],
       ExitUsage)
  | namespace :: rest =>
      let subPath := match rest with
                     | arg :: _ => arg
                     | [] => ""
                     end in
      let path := metadataPath kvEngine subPath in
      match getVaultClient getenv with
      | Err message => ([], Fatal message)
      | Ok (vaultAddr, vaultToken) =>
          let client := connect vaultAddr vaultToken namespace in
          match ListSecrets client path with
          | Err err => ([], Fatal ("Failed to list secrets: " ++ err))
          | Ok [] =>
              ([Printf ("No secrets found at the specified path" ++ nl)],
               Finished)
          | Ok found =>
              (Printf ("Secrets at " ++ pathDesc kvEngine subPath
                       ++ " in namespace " ++ namespace ++ ":" ++ nl)
                 :: map (fun secret => Printf ("  - " ++ secret ++ nl))
                        found,
               Finished)
          end
      end
  end.

End Handlers.

End Cli.

(** * Properties *)

(** ** Strings *)

Section StringFacts.

Lemma append_cons (c : ascii) (a b : string) :
  String c a ++ b = String c (a ++ b).
Proof. reflexivity. Qed.

Lemma append_empty_l (a : string) : "" ++ a = a.
Proof. reflexivity. Qed.

Lemma append_empty_r (a : string) : a ++ "" = a.
Proof.
  induction a as [|c a IH]; [reflexivity|].
  rewrite append_cons, IH. reflexivity.
Qed.

Lemma append_assoc (a b c : string) : (a ++ b) ++ c = a ++ (b ++ c).
Proof.
  induction a as [|x a IH]; [reflexivity|].
  rewrite !append_cons, IH. reflexivity.
Qed.

Lemma length_append (a b : string) :
  String.length (a ++ b) = (String.length a + String.length b)%nat.
Proof.
  induction a as [|x a IH]; [reflexivity|].
  rewrite append_cons. simpl. rewrite IH. reflexivity.
Qed.

Lemma prefix_append (a b : string) : String.prefix a (a ++ b) = true.
Proof.
  induction a as [|x a IH]; [destruct b; reflexivity|].
  rewrite append_cons. simpl.
  destruct (ascii_dec x x) as [_|N]; [exact IH|contradiction].
Qed.

Lemma substring_all (s : string) : substring 0 (String.length s) s = s.
Proof.
  induction s as [|x s IH]; [reflexivity|]. simpl. rewrite IH. reflexivity.
Qed.

Lemma substring_append_l (a b : string) :
  substring 0 (String.length a) (a ++ b) = a.
Proof.
  induction a as [|x a IH]; [destruct b; reflexivity|].
  rewrite append_cons. simpl. rewrite IH. reflexivity.
Qed.

Lemma substring_append_r (a b : string) :
  substring (String.length a) (String.length b) (a ++ b) = b.
Proof.
  induction a as [|x a IH]; [apply substring_all|].
  rewrite append_cons. simpl. exact IH.
Qed.

Lemma TrimPrefix_append (a b : string) : TrimPrefix (a ++ b) a = b.
Proof.
  unfold TrimPrefix, HasPrefix. rewrite prefix_append, length_append.
  replace (String.length a + String.length b - String.length a)%nat
    with (String.length b) by lia.
  apply substring_append_r.
Qed.

Lemma HasSuffix_append (a b : string) : HasSuffix (a ++ b) b = true.
Proof.
  unfold HasSuffix. rewrite length_append.
  replace (String.length a + String.length b - String.length b)%nat
    with (String.length a) by lia.
  rewrite substring_append_r, String.eqb_refl.
  apply andb_true_intro. split; [apply Nat.leb_le; lia|reflexivity].
Qed.

Lemma TrimSuffix_append (a b : string) : TrimSuffix (a ++ b) b = a.
Proof.
  unfold TrimSuffix. rewrite HasSuffix_append, length_append.
  replace (String.length a + String.length b - String.length b)%nat
    with (String.length a) by lia.
  apply substring_append_l.
Qed.

Lemma slice_to_append (a b : string) :
  slice_to (a ++ b) (String.length a) = a.
Proof. apply substring_append_l. Qed.

Lemma slice_from_append (a b : string) :
  slice_from (a ++ b) (String.length a) = b.
Proof.
  unfold slice_from. rewrite length_append.
  replace (String.length a + String.length b - String.length a)%nat
    with (String.length b) by lia.
  apply substring_append_r.
Qed.

(** *** [Split] and [Join] *)

Lemma Split_not_nil (s : string) (sep : ascii) : Split s sep <> [].
Proof.
  destruct s as [|c s]; simpl; [discriminate|].
  destruct (Ascii.eqb c sep); [discriminate|].
  destruct (Split s sep); discriminate.
Qed.

Lemma Split_cons_sep (s : string) (sep : ascii) :
  Split (String sep s) sep = "" :: Split s sep.
Proof. simpl. rewrite Ascii.eqb_refl. reflexivity. Qed.

Lemma Split_cons_other (c : ascii) (s : string) (sep : ascii) :
  Ascii.eqb c sep = false ->
  Split (String c s) sep
  = String c (hd "" (Split s sep)) :: tl (Split s sep).
Proof.
  intros Hc. simpl. rewrite Hc.
  pose proof (Split_not_nil s sep) as Hn.
  destruct (Split s sep); [contradiction|reflexivity].
Qed.

Lemma Split_no_sep (s : string) (sep : ascii) :
  has_byte sep s = false -> Split s sep = [s].
Proof.
  induction s as [|c s IH]; [reflexivity|].
  simpl. intros H. apply orb_false_iff in H as [Hc Hs].
  rewrite Hc, (IH Hs). reflexivity.
Qed.

Lemma Split_append (a b : string) (sep : ascii) :
  Split (a ++ String sep b) sep = (Split a sep ++ Split b sep)%list.
Proof.
  induction a as [|c a IH].
  - rewrite append_empty_l. apply Split_cons_sep.
  - rewrite append_cons.
    destruct (Ascii.eqb c sep) eqn:Hc.
    + apply Ascii.eqb_eq in Hc. subst c.
      rewrite !Split_cons_sep, IH. reflexivity.
    + rewrite !(Split_cons_other _ _ _ Hc), IH.
      pose proof (Split_not_nil a sep) as Hn.
      destruct (Split a sep); [contradiction|reflexivity].
Qed.

Lemma Join_cons (e : string) (rest : list string) (sep : string) :
  rest <> [] -> Join (e :: rest) sep = e ++ sep ++ Join rest sep.
Proof. destruct rest; [contradiction|reflexivity]. Qed.

Lemma Join_Split (s : string) (sep : ascii) :
  Join (Split s sep) (String sep "") = s.
Proof.
  induction s as [|c s IH]; [reflexivity|].
  pose proof (Split_not_nil s sep) as Hn.
  destruct (Ascii.eqb c sep) eqn:Hc.
  - apply Ascii.eqb_eq in Hc. subst c.
    rewrite Split_cons_sep, (Join_cons _ _ _ Hn), IH. reflexivity.
  - rewrite (Split_cons_other _ _ _ Hc).
    destruct (Split s sep) as [|p ps]; [contradiction|].
    simpl hd. simpl tl. rewrite <- IH.
    destruct ps; [reflexivity|].
    rewrite !Join_cons by discriminate.
    rewrite append_cons. reflexivity.
Qed.

Lemma Split_pieces_no_sep (s : string) (sep : ascii) :
  Forall (fun piece => has_byte sep piece = false) (Split s sep).
Proof.
  induction s as [|c s IH]; [repeat constructor|].
  pose proof (Split_not_nil s sep) as Hn.
  destruct (Ascii.eqb c sep) eqn:Hc.
  - apply Ascii.eqb_eq in Hc. subst c. rewrite Split_cons_sep.
    constructor; [reflexivity|exact IH].
  - rewrite (Split_cons_other _ _ _ Hc).
    destruct (Split s sep) as [|p ps]; [contradiction|].
    inversion IH; subst. constructor; [|assumption].
    simpl. rewrite Hc. assumption.
Qed.

Lemma Split_Join (pieces : list string) (sep : ascii) :
  pieces <> [] ->
  Forall (fun piece => has_byte sep piece = false) pieces ->
  Split (Join pieces (String sep "")) sep = pieces.
Proof.
  induction pieces as [|p ps IH]; [contradiction|].
  intros _ Hall. inversion Hall as [|? ? Hp Hps]; subst.
  destruct ps as [|q qs].
  - simpl. apply Split_no_sep. exact Hp.
  - rewrite Join_cons by discriminate.
    rewrite append_cons, append_empty_l.
    rewrite Split_append, (Split_no_sep _ _ Hp), IH
      by (discriminate || assumption).
    reflexivity.
Qed.

Lemma ReplaceAll_same (s : string) (c : ascii) :
  ReplaceAll s c (String c "") = s.
Proof. apply Join_Split. Qed.

End StringFacts.

(** ** Metadata and data paths *)

Section DataPath.

(** A path whose first element is [engine] and whose second is [seg]. *)
Lemma Split_two (engine seg tail : string) :
  has_byte slash engine = false ->
  has_byte slash seg = false ->
  Split (engine ++ String slash (seg ++ String slash tail)) slash
  = engine :: seg :: Split tail slash.
Proof.
  intros He Hs.
  rewrite !Split_append, (Split_no_sep _ _ He), (Split_no_sep _ _ Hs).
  reflexivity.
Qed.

Lemma GetSecret_PutSecret_dataPath (secretPath : string) :
  PutSecret_dataPath secretPath = GetSecret_dataPath secretPath.
Proof. reflexivity. Qed.

(** With at least three elements, the second being ["metadata"], the
    conversion replaces that element and keeps the others. *)
Lemma dataPath_metadata (secretPath engine : string) (rest : list string) :
  Split secretPath slash = engine :: "metadata" :: rest ->
  rest <> [] ->
  GetSecret_dataPath secretPath = engine ++ "/data/" ++ Join rest "/"
  /\ replace_element1 secretPath = engine ++ "/data/" ++ Join rest "/".
Proof.
  intros Hs Hr. unfold GetSecret_dataPath, replace_element1. rewrite Hs.
  simpl length. simpl nth. simpl skipn. cbn [Nat.leb andb String.eqb].
  split; [reflexivity|].
  rewrite Join_cons by discriminate. rewrite Join_cons by assumption.
  reflexivity.
Qed.

(** A path whose second element is not ["metadata"] is passed through. *)
Lemma dataPath_other (secretPath : string) :
  nth 1 (Split secretPath slash) "" <> "metadata" ->
  GetSecret_dataPath secretPath = secretPath.
Proof.
  intros Hn. unfold GetSecret_dataPath.
  apply String.eqb_neq in Hn. rewrite Hn, andb_false_r. reflexivity.
Qed.

(** The result of the conversion is passed through by a second one. *)
Lemma dataPath_idempotent (secretPath : string) :
  GetSecret_dataPath (GetSecret_dataPath secretPath)
  = GetSecret_dataPath secretPath.
Proof.
  unfold GetSecret_dataPath at 2 3.
  destruct ((2 <=? length (Split secretPath slash))%nat
            && String.eqb (nth 1 (Split secretPath slash) "") "metadata")
    eqn:Hc.
  - apply dataPath_other.
    pose proof (Split_pieces_no_sep secretPath slash) as Hp.
    destruct (Split secretPath slash) as [|engine tl]; [discriminate|].
    inversion Hp as [|? ? He _]; subst.
    change (nth 0 (engine :: tl) "") with engine.
    change (engine ++ "/data/" ++ Join (skipn 2 (engine :: tl)) "/")
      with (engine ++ String slash
              ("data" ++ String slash (Join (skipn 2 (engine :: tl)) "/"))).
    rewrite Split_two by (assumption || reflexivity).
    simpl. discriminate.
  - apply dataPath_other. intros Hm.
    rewrite Hm in Hc. rewrite String.eqb_refl, andb_true_r in Hc.
    apply Nat.leb_gt in Hc.
    destruct (Split secretPath slash) as [|a [|b l]]; simpl in *;
      try discriminate; lia.
Qed.

(** C4. [GetSecret] and [PutSecret] on the two-element metadata path
    ["kv/metadata"]: the guard [len(parts) >= 2 && parts[1] == "metadata"]
    holds, and the data path built is ["kv/data/"], whose elements are
    ["kv"], ["data"] and an empty third one, where replacing element 1 by
    ["data"] and keeping the others gives ["kv/data"]. *)
Theorem dataPath_two_element_path :
  GetSecret_dataPath "kv/metadata" = "kv/data/"
  /\ PutSecret_dataPath "kv/metadata" = "kv/data/"
  /\ Split (GetSecret_dataPath "kv/metadata") slash = ["kv"; "data"; ""]
  /\ replace_element1 "kv/metadata" = "kv/data"
  /\ GetSecret_dataPath "kv/metadata" <> replace_element1 "kv/metadata".
Proof. repeat split; try reflexivity. discriminate. Qed.

(** The walker's current path [engine/metadata] or [engine/metadata/more],
    followed by a key: its elements. *)
Lemma Split_current_key (engine more key : string) :
  has_byte slash engine = false ->
  more = "" \/ (exists m, more = String slash m) ->
  exists rest,
    rest <> []
    /\ Split (engine ++ "/metadata" ++ more ++ "/" ++ key) slash
       = engine :: "metadata" :: rest
    /\ Split ("kv/data" ++ more ++ "/" ++ key) slash
       = "kv" :: "data" :: rest.
Proof.
  intros He [Hm | [m Hm]]; subst more.
  - exists (Split key slash). split; [apply Split_not_nil|]. split.
    + change (engine ++ "/metadata" ++ "" ++ "/" ++ key)
        with (engine ++ String slash ("metadata" ++ String slash key)).
      apply Split_two; [assumption|reflexivity].
    + change ("kv/data" ++ "" ++ "/" ++ key)
        with ("kv" ++ String slash ("data" ++ String slash key)).
      apply Split_two; reflexivity.
  - exists (Split m slash ++ Split key slash)%list. split.
    { pose proof (Split_not_nil m slash).
      destruct (Split m slash); [contradiction|discriminate]. }
    split.
    + change (engine ++ "/metadata" ++ String slash m ++ "/" ++ key)
        with (engine ++ String slash
                ("metadata" ++ String slash (m ++ String slash key))).
      rewrite Split_two by (assumption || reflexivity).
      rewrite Split_append. reflexivity.
    + change ("kv/data" ++ String slash m ++ "/" ++ key)
        with ("kv" ++ String slash
                ("data" ++ String slash (m ++ String slash key))).
      rewrite Split_two by reflexivity.
      rewrite Split_append. reflexivity.
Qed.

(** The hardcoded test [currentPath[:11] == "kv/metadata"] holds on a
    path [engine/metadata...] for the engine ["kv"] only. *)
Lemma kv_prefix_engine (engine tail : string) :
  has_byte slash engine = false ->
  slice_to (engine ++ "/metadata" ++ tail) 11 = "kv/metadata" ->
  engine = "kv".
Proof.
  intros He Hp.
  destruct engine as [|a [|b [|c engine]]];
    cbv [slice_to substring String.append] in Hp.
  - discriminate.
  - injection Hp; intros; subst; discriminate.
  - injection Hp; intros; subst; reflexivity.
  - exfalso. injection Hp; intros; subst.
    simpl in He. discriminate.
Qed.

(** C5, amended to engine names of one element. For every current path
    [engine/metadata] or [engine/metadata/more] of the walker whose engine
    name holds no separator, whatever the depth, and every key listed
    there, the data path requested for the key (the ["kv/metadata"]
    rewrite of [pullSecretsRecursivelyHelper], then the conversion of
    [GetSecret]) is the path [currentPath/key] with its element 1 replaced
    by ["data"]. *)
Theorem walker_rewrite_equivalence (engine more key : string) :
  has_byte slash engine = false ->
  more = "" \/ (exists m, more = String slash m) ->
  leaf_dataPath (engine ++ "/metadata" ++ more) key
  = replace_element1 ((engine ++ "/metadata" ++ more) ++ "/" ++ key).
Proof.
  intros He Hm.
  destruct (Split_current_key engine more key He Hm)
    as (rest & Hrest & Hfull & Hkv).
  assert (Hpath : (engine ++ "/metadata" ++ more) ++ "/" ++ key
                  = engine ++ "/metadata" ++ more ++ "/" ++ key).
  { rewrite append_assoc.
    change ("/metadata" ++ more) with (String slash ("metadata" ++ more)).
    rewrite append_cons, append_assoc. reflexivity. }
  rewrite Hpath.
  destruct (dataPath_metadata _ _ _ Hfull Hrest) as [Hget Hrepl].
  rewrite Hrepl. unfold leaf_dataPath, leaf_secretPath.
  destruct ((11 <=? String.length (engine ++ "/metadata" ++ more))%nat
            && String.eqb (slice_to (engine ++ "/metadata" ++ more) 11)
                          "kv/metadata") eqn:Hc.
  - apply andb_prop in Hc as [_ Hc]. apply String.eqb_eq in Hc.
    pose proof (kv_prefix_engine _ _ He Hc) as ->.
    change ("kv" ++ "/metadata" ++ more) with ("kv/metadata" ++ more).
    change 11%nat with (String.length "kv/metadata").
    rewrite slice_from_append.
    rewrite dataPath_other.
    + assert (Hj : Join ("kv" :: "data" :: rest) "/"
                   = "kv" ++ "/data/" ++ Join rest "/").
      { rewrite Join_cons by discriminate.
        rewrite Join_cons by assumption. reflexivity. }
      rewrite <- Hj, <- Hkv.
      change "/" with (String slash ""). rewrite Join_Split. reflexivity.
    + rewrite Hkv. simpl. discriminate.
  - rewrite Hpath. exact Hget.
Qed.

Lemma walker_rewrite_equivalence_witness :
  leaf_dataPath ("secret" ++ "/metadata" ++ "/app/metadata") "db"
  = replace_element1 (("secret" ++ "/metadata" ++ "/app/metadata")
                      ++ "/" ++ "db").
Proof.
  apply (walker_rewrite_equivalence "secret" "/app/metadata" "db").
  - reflexivity.
  - right. exists "app/metadata". reflexivity.
Defined.

(** C5, as stated: the equivalence for every engine name. It fails for
    the engine ["team/kv"], a name of two elements: at the current path
    ["team/kv/metadata"] neither the rewrite of the walker nor the
    conversion of [GetSecret] applies, and the key ["db"] is requested at
    ["team/kv/metadata/db"], which is neither the path with its element 1
    replaced nor the path with its [metadata] element replaced. *)
Lemma walker_rewrite_equivalence_counterexample :
  ~ (forall engine more key : string,
        more = "" \/ (exists m, more = String slash m) ->
        leaf_dataPath (engine ++ "/metadata" ++ more) key
        = replace_element1 ((engine ++ "/metadata" ++ more) ++ "/" ++ key))
  /\ leaf_dataPath ("team/kv" ++ "/metadata" ++ "") "db"
     = "team/kv/metadata/db"
  /\ replace_element1 (("team/kv" ++ "/metadata" ++ "") ++ "/" ++ "db")
     = "team/data/metadata/db"
  /\ leaf_dataPath ("team/kv" ++ "/metadata" ++ "") "db"
     <> "team/kv/data/db".
Proof.
  assert (Hcode : leaf_dataPath ("team/kv" ++ "/metadata" ++ "") "db"
                  = "team/kv/metadata/db") by reflexivity.
  assert (Hspec : replace_element1
                    (("team/kv" ++ "/metadata" ++ "") ++ "/" ++ "db")
                  = "team/data/metadata/db") by reflexivity.
  split; [|split; [exact Hcode|split; [exact Hspec|]]].
  - intros H. specialize (H "team/kv" "" "db" (or_introl eq_refl)).
    rewrite Hcode, Hspec in H. discriminate.
  - rewrite Hcode. discriminate.
Qed.

End DataPath.

(** ** Cleaned paths *)

Section FilepathFacts.

Import Filepath.

Lemma clean_step_plain (abs : bool) (out : list string) (elem : string) :
  plain elem -> clean_step abs out elem = elem :: out.
Proof.
  intros (H1 & H2 & H3 & _). unfold clean_step.
  apply String.eqb_neq in H1, H2, H3. rewrite H1, H2, H3. reflexivity.
Qed.

Lemma clean_fold_plain (abs : bool) (elems out : list string) :
  Forall plain elems ->
  fold_left (clean_step abs) elems out = (rev elems ++ out)%list.
Proof.
  revert out. induction elems as [|e elems IH]; intros out Hall;
    [reflexivity|].
  inversion Hall; subst. simpl.
  rewrite clean_step_plain, IH by assumption.
  rewrite <- app_assoc. reflexivity.
Qed.

Lemma clean_fold_dotdot (n : nat) (out : list string) :
  (forall top below, out = top :: below -> top = "..") ->
  fold_left (clean_step false) (repeat ".." n) out
  = (repeat ".." n ++ out)%list.
Proof.
  revert out. induction n as [|n IH]; intros out Hout; [reflexivity|].
  simpl repeat. simpl fold_left.
  assert (Hs : clean_step false out ".." = ".." :: out).
  { unfold clean_step. simpl.
    destruct out as [|top below]; [reflexivity|].
    rewrite (Hout top below eq_refl). reflexivity. }
  rewrite Hs, IH.
  - change (".." :: out) with ([".."] ++ out)%list.
    rewrite app_assoc. f_equal.
    clear. induction n as [|n IHn]; [reflexivity|].
    simpl. f_equal. exact IHn.
  - intros top below Heq. injection Heq as <- _. reflexivity.
Qed.

Lemma rev_repeat (A : Type) (x : A) (n : nat) : rev (repeat x n) = repeat x n.
Proof.
  induction n as [|n IH]; [reflexivity|].
  simpl. rewrite IH. clear.
  induction n as [|n IHn]; [reflexivity|]. simpl. f_equal. exact IHn.
Qed.

(** Cleaning the elements of a stack again gives the stack back. *)
Lemma clean_fold_stack (abs : bool) (out : list string) :
  stack_ok abs out ->
  fold_left (clean_step abs) (rev out) [] = out.
Proof.
  intros (normals & n & -> & Hn & Habs).
  rewrite rev_app_distr, rev_repeat, fold_left_app.
  assert (Hd : fold_left (clean_step abs) (repeat ".." n) []
               = repeat ".." n).
  { destruct abs.
    - rewrite (Habs eq_refl). reflexivity.
    - rewrite clean_fold_dotdot by discriminate. apply app_nil_r. }
  rewrite Hd, clean_fold_plain, rev_involutive.
  - reflexivity.
  - apply Forall_rev. exact Hn.
Qed.

Lemma stack_ok_step (abs : bool) (out : list string) (elem : string) :
  has_byte slash elem = false ->
  stack_ok abs out -> stack_ok abs (clean_step abs out elem).
Proof.
  intros Hs (normals & n & -> & Hn & Habs). unfold clean_step.
  destruct (String.eqb elem "") eqn:E1; [exists normals, n; auto|].
  destruct (String.eqb elem ".") eqn:E2; [exists normals, n; auto|].
  destruct (String.eqb elem "..") eqn:E3.
  - destruct normals as [|top below].
    + simpl app. destruct n as [|n].
      * simpl. destruct abs.
        -- exists [], O. auto.
        -- exists [], 1%nat. repeat split; [constructor|discriminate].
      * simpl repeat. simpl String.eqb.
        exists [], (S (S n)). repeat split; [constructor|].
        intros Ha. specialize (Habs Ha). discriminate.
    + simpl app. inversion Hn as [|? ? Ht Hb]; subst.
      destruct Ht as (_ & _ & Ht & _).
      apply String.eqb_neq in Ht. rewrite Ht.
      exists below, n. auto.
  - exists (elem :: normals), n. repeat split; auto.
    constructor; [|assumption].
    apply String.eqb_neq in E1, E2, E3. repeat split; assumption.
Qed.

Lemma stack_ok_fold (abs : bool) (elems out : list string) :
  Forall (fun elem => has_byte slash elem = false) elems ->
  stack_ok abs out -> stack_ok abs (fold_left (clean_step abs) elems out).
Proof.
  revert out. induction elems as [|e elems IH]; intros out Hall Hout;
    [assumption|].
  inversion Hall; subst. simpl. apply IH; [assumption|].
  apply stack_ok_step; assumption.
Qed.

Lemma stack_ok_nil (abs : bool) : stack_ok abs [].
Proof. exists [], O. repeat split; constructor. Qed.

Lemma stack_ok_push (abs : bool) (out elems : list string) :
  Forall plain elems -> stack_ok abs out ->
  stack_ok abs (rev elems ++ out)%list.
Proof.
  intros He (normals & n & -> & Hn & Habs).
  exists (rev elems ++ normals)%list, n. repeat split.
  - apply app_assoc.
  - apply Forall_app. split; [apply Forall_rev|]; assumption.
  - assumption.
Qed.

(** The elements of a stack are not empty and hold no separator. *)
Lemma stack_ok_elems (abs : bool) (out : list string) :
  stack_ok abs out ->
  Forall (fun elem => elem <> "" /\ has_byte slash elem = false) out.
Proof.
  intros (normals & n & -> & Hn & _). apply Forall_app. split.
  - eapply List.Forall_impl; [|exact Hn]. intros e (H1 & _ & _ & H4). auto.
  - clear. induction n as [|n IH]; constructor; [|exact IH].
    split; [discriminate|reflexivity].
Qed.

Lemma Clean_render (path : string) :
  Clean path
  = render (rooted path) (clean_elems (rooted path) (Split path Separator)).
Proof. reflexivity. Qed.

Lemma clean_elems_stack (abs : bool) (elems : list string) :
  Forall (fun elem => has_byte slash elem = false) elems ->
  stack_ok abs (rev (clean_elems abs elems)).
Proof.
  intros Hall. unfold clean_elems. rewrite rev_involutive.
  apply stack_ok_fold; [assumption|apply stack_ok_nil].
Qed.

Lemma clean_elems_app_plain (abs : bool) (elems more : list string) :
  Forall plain more ->
  clean_elems abs (elems ++ more) = (clean_elems abs elems ++ more)%list.
Proof.
  intros Hm. unfold clean_elems.
  rewrite fold_left_app, clean_fold_plain by assumption.
  rewrite rev_app_distr, rev_involutive. reflexivity.
Qed.

Lemma clean_elems_kept (abs : bool) (kept : list string) :
  stack_ok abs (rev kept) -> clean_elems abs kept = kept.
Proof.
  intros Hk. unfold clean_elems.
  rewrite <- (rev_involutive kept) at 1.
  rewrite (clean_fold_stack _ _ Hk). apply rev_involutive.
Qed.

Lemma kept_elems (abs : bool) (kept : list string) :
  stack_ok abs (rev kept) ->
  Forall (fun elem => elem <> "" /\ has_byte slash elem = false) kept.
Proof.
  intros Hk. rewrite <- (rev_involutive kept).
  apply Forall_rev. exact (stack_ok_elems _ _ Hk).
Qed.

Lemma kept_no_sep (abs : bool) (kept : list string) :
  stack_ok abs (rev kept) ->
  Forall (fun elem => has_byte slash elem = false) kept.
Proof.
  intros Hk. eapply List.Forall_impl; [|exact (kept_elems _ _ Hk)].
  intros e [_ H]. exact H.
Qed.

Lemma Split_Join_kept (abs : bool) (kept : list string) :
  stack_ok abs (rev kept) -> kept <> [] ->
  Split (Join kept "/") slash = kept.
Proof.
  intros Hk Hn. apply (Split_Join kept slash Hn). exact (kept_no_sep _ _ Hk).
Qed.

Lemma Join_kept_head (abs : bool) (kept : list string) :
  stack_ok abs (rev kept) -> kept <> [] ->
  exists c tail, Join kept "/" = String c tail /\ Ascii.eqb c slash = false.
Proof.
  intros Hk Hn. pose proof (kept_elems _ _ Hk) as He.
  destruct kept as [|e rest]; [contradiction|].
  inversion He as [|? ? [He1 He2] _]; subst.
  destruct e as [|c e]; [contradiction|].
  simpl in He2. apply orb_false_iff in He2 as [Hc _].
  destruct rest as [|r rest].
  - exists c, e. split; [reflexivity|exact Hc].
  - exists c, (e ++ "/" ++ Join (r :: rest) "/"). split; [|exact Hc].
    rewrite Join_cons by discriminate. reflexivity.
Qed.

(** A rendered stack is a cleaned path: [Clean] leaves it as it is. *)
Lemma Clean_rendered (abs : bool) (kept : list string) :
  stack_ok abs (rev kept) ->
  Clean (render abs kept) = render abs kept.
Proof.
  intros Hk. rewrite Clean_render. destruct abs.
  - change (rooted (render true kept)) with true.
    change (Split (render true kept) Separator)
      with ("" :: Split (Join kept "/") slash).
    destruct kept as [|e rest]; [reflexivity|].
    rewrite (Split_Join_kept _ _ Hk) by discriminate.
    change (clean_elems true ("" :: e :: rest))
      with (clean_elems true (e :: rest)).
    rewrite (clean_elems_kept _ _ Hk). reflexivity.
  - destruct kept as [|e rest]; [reflexivity|].
    change (render false (e :: rest)) with (Join (e :: rest) "/").
    destruct (Join_kept_head _ _ Hk) as (c & tail & Hj & Hc);
      [discriminate|].
    assert (Hr : rooted (Join (e :: rest) "/") = false).
    { rewrite Hj. exact Hc. }
    rewrite Hr. change Separator with slash.
    rewrite (Split_Join_kept _ _ Hk) by discriminate.
    rewrite (clean_elems_kept _ _ Hk). reflexivity.
Qed.

Lemma Clean_idempotent (path : string) : Clean (Clean path) = Clean path.
Proof.
  rewrite (Clean_render path). apply Clean_rendered.
  apply clean_elems_stack, Split_pieces_no_sep.
Qed.

Lemma plain_kept (elems : list string) :
  Forall plain elems -> stack_ok false (rev elems).
Proof.
  intros He. rewrite <- (app_nil_r (rev elems)).
  apply stack_ok_push; [assumption|apply stack_ok_nil].
Qed.

(** [filepath.Join] of any directory and a relative path of plain
    elements: the directory's kept elements, then those of the path. *)
Lemma Join2_plain (dir : string) (elems : list string) :
  elems <> [] -> Forall plain elems ->
  Join2 dir (Join elems "/")
  = render (rooted dir)
      (clean_elems (rooted dir) (Split dir Separator) ++ elems).
Proof.
  intros Hn He. pose proof (plain_kept _ He) as Hk. unfold Join2.
  destruct dir as [|c dir].
  - change (String.eqb "" "") with true. cbv iota.
    destruct (Join_kept_head _ _ Hk Hn) as (h & tail & Hj & Hh).
    rewrite Hj. change (String.eqb (String h tail) "") with false.
    cbv iota. rewrite <- Hj.
    change (clean_elems (rooted "") (Split "" Separator)) with (@nil string).
    change (rooted "") with false. simpl app.
    rewrite <- (Clean_rendered false elems Hk).
    destruct elems; [contradiction|reflexivity].
  - change (String.eqb (String c dir) "") with false. cbv iota.
    rewrite Clean_render.
    change (rooted (String c dir ++ "/" ++ Join elems "/"))
      with (rooted (String c dir)).
    change (String c dir ++ "/" ++ Join elems "/")
      with (String c dir ++ String slash (Join elems "/")).
    change Separator with slash.
    rewrite Split_append, (Split_Join_kept _ _ Hk Hn).
    rewrite clean_elems_app_plain by assumption. reflexivity.
Qed.

Lemma drop_common_prefix (common rest : list string) :
  drop_common common (common ++ rest) = ([], rest).
Proof.
  induction common as [|e common IH].
  - destruct rest; reflexivity.
  - simpl. rewrite String.eqb_refl. exact IH.
Qed.

Lemma Join_kept_not_empty (abs : bool) (kept : list string) :
  stack_ok abs (rev kept) -> kept <> [] -> Join kept "/" <> "".
Proof.
  intros Hk Hn. destruct (Join_kept_head _ _ Hk Hn) as (c & t & -> & _).
  discriminate.
Qed.

Lemma Join_kept_inj (abs : bool) (kept kept' : list string) :
  stack_ok abs (rev kept) -> stack_ok abs (rev kept') ->
  kept <> [] -> kept' <> [] ->
  Join kept "/" = Join kept' "/" -> kept = kept'.
Proof.
  intros Hk Hk' Hn Hn' Heq.
  rewrite <- (Split_Join_kept _ _ Hk Hn), <- (Split_Join_kept _ _ Hk' Hn').
  rewrite Heq. reflexivity.
Qed.

(** The elements [Rel] compares in a rendered stack. *)
Lemma rel_elems_rendered (abs : bool) (kept : list string) :
  stack_ok abs (rev kept) -> kept <> [] ->
  rel_elems (render abs kept)
  = if abs then "" :: kept else kept.
Proof.
  intros Hk Hn. destruct (Join_kept_head _ _ Hk Hn) as (c & t & Hj & Hc).
  pose proof (Split_Join_kept _ _ Hk Hn) as Hs.
  unfold rel_elems, render. destruct abs.
  - change (String.eqb (String Separator (Join kept "/")) "") with false.
    rewrite Hj.
    change (String.eqb (String Separator (String c t)) "/") with false.
    cbv iota. rewrite <- Hj.
    change (Split (String Separator (Join kept "/")) Separator)
      with ("" :: Split (Join kept "/") slash).
    rewrite Hs. reflexivity.
  - destruct kept as [|e rest]; [contradiction|].
    rewrite Hj. change (String.eqb (String c t) "") with false. cbv iota.
    assert (Hne : String.eqb (String c t) "/" = false).
    { apply String.eqb_neq. intros Heq. injection Heq as -> _.
      discriminate. }
    rewrite Hne, <- Hj. exact Hs.
Qed.

(** A file below a directory, made relative to the directory: the
    elements added below it. *)
Lemma Rel_below (dir : string) (elems : list string) :
  elems <> [] -> Forall plain elems ->
  Rel dir (Join2 dir (Join elems "/")) = Some (Join elems "/").
Proof.
  intros Hn He. rewrite (Join2_plain _ _ Hn He).
  set (abs := rooted dir).
  set (kept := clean_elems abs (Split dir Separator)).
  assert (Hk : stack_ok abs (rev kept))
    by apply clean_elems_stack, Split_pieces_no_sep.
  assert (Hke : stack_ok abs (rev (kept ++ elems))).
  { rewrite rev_app_distr. apply stack_ok_push; assumption. }
  assert (Hne : (kept ++ elems)%list <> []).
  { destruct kept; [assumption|discriminate]. }
  unfold Rel. rewrite (Clean_rendered _ _ Hke), (Clean_render dir).
  fold abs. fold kept.
  assert (Hdiff : String.eqb (render abs (kept ++ elems)) (render abs kept)
                  = false).
  { apply String.eqb_neq. intros Heq.
    assert (Hj : Join (kept ++ elems) "/"
                 = Join (match kept with [] => ["."] | _ => kept end) "/"
                 \/ (kept = [] /\ Join (kept ++ elems) "/" = "")).
    { unfold render in Heq. destruct abs.
      - injection Heq as Heq. destruct kept; [right|left]; auto.
      - left. destruct kept as [|k kept']; simpl app in *.
        + destruct elems; [contradiction|exact Heq].
        + exact Heq. }
    destruct Hj as [Hj | [_ Hj]].
    - destruct kept as [|k kept'].
      + simpl app in Hj.
        pose proof (Split_Join_kept _ _ (plain_kept _ He) Hn) as Hs.
        rewrite Hj in Hs. simpl in Hs. subst elems.
        inversion He as [|? ? (_ & Hdot & _) _]. contradiction.
      + apply (Join_kept_inj abs _ _ Hke Hk Hne) in Hj; [|discriminate].
        apply (f_equal (@length string)) in Hj.
        rewrite length_app in Hj.
        destruct elems; [contradiction|simpl in Hj; lia].
    - exact (Join_kept_not_empty _ _ Hke Hne Hj). }
  rewrite Hdiff.
  assert (Hbase : (if String.eqb (render abs kept) "." then ""
                   else render abs kept)
                  = if abs then render abs kept
                    else match kept with [] => "" | _ => render abs kept end).
  { destruct abs; [reflexivity|].
    destruct kept as [|k kept']; [reflexivity|].
    destruct (String.eqb (render false (k :: kept')) ".") eqn:Hd;
      [|reflexivity].
    apply String.eqb_eq in Hd. exfalso.
    pose proof (Split_Join_kept _ _ Hk) as Hs.
    change (render false (k :: kept')) with (Join (k :: kept') "/") in Hd.
    rewrite Hd in Hs. specialize (Hs ltac:(discriminate)).
    simpl in Hs. rewrite <- Hs in Hk.
    destruct Hk as (normals & n & Hrev & Hnorm & _).
    destruct normals as [|x normals].
    - destruct n; discriminate.
    - injection Hrev as <- _. inversion Hnorm as [|? ? (_ & Hdot & _) _].
      contradiction. }
  rewrite Hbase. clear Hbase Hdiff.
  rewrite (rel_elems_rendered _ _ Hke Hne).
  destruct abs.
  - change (rooted (render true kept)) with true.
    change (rooted (render true (kept ++ elems))) with true.
    cbv [Bool.eqb negb].
    destruct kept as [|k kept'].
    + change (rel_elems (render true [])) with [""].
      change ("" :: [] ++ elems)%list with ([""] ++ elems)%list.
      rewrite drop_common_prefix. reflexivity.
    + rewrite (rel_elems_rendered _ _ Hk) by discriminate.
      change ("" :: (k :: kept') ++ elems)%list
        with (("" :: k :: kept') ++ elems)%list.
      rewrite drop_common_prefix. reflexivity.
  - assert (Hr : rooted (render false (kept ++ elems)) = false).
    { destruct (Join_kept_head _ _ Hke Hne) as (c & t & Hj & Hc).
      unfold render. destruct (kept ++ elems)%list; [contradiction|].
      rewrite Hj. exact Hc. }
    rewrite Hr. destruct kept as [|k kept'].
    + change (rooted "") with false. cbv [Bool.eqb negb].
      change (rel_elems "") with (@nil string).
      simpl app. destruct elems; [contradiction|reflexivity].
    + assert (Hr' : rooted (render false (k :: kept')) = false).
      { destruct (Join_kept_head _ _ Hk) as (c & t & Hj & Hc);
          [discriminate|].
        change (render false (k :: kept')) with (Join (k :: kept') "/").
        rewrite Hj. exact Hc. }
      rewrite Hr'. cbv [Bool.eqb negb].
      rewrite (rel_elems_rendered _ _ Hk) by discriminate.
      rewrite drop_common_prefix. reflexivity.
Qed.

End FilepathFacts.

(** ** The round trip of a path through a file *)

Section RoundTrip.

Import Filepath.

Lemma removelast_cons (A : Type) (x : A) (l : list A) :
  l <> [] -> removelast (x :: l) = x :: removelast l.
Proof. destruct l; [contradiction|reflexivity]. Qed.

Lemma last_cons (A : Type) (x d : A) (l : list A) :
  l <> [] -> List.last (x :: l) d = List.last l d.
Proof. destruct l; [contradiction|reflexivity]. Qed.

(** Appending text without separator extends the last piece. *)
Lemma Split_append_no_sep (s t : string) (sep : ascii) :
  has_byte sep t = false ->
  Split (s ++ t) sep
  = (removelast (Split s sep) ++ [List.last (Split s sep) "" +:+ t])%list.
Proof.
  intros Ht. induction s as [|c s IH].
  - rewrite append_empty_l. simpl. apply Split_no_sep. exact Ht.
  - rewrite append_cons. pose proof (Split_not_nil s sep) as Hn.
    destruct (Ascii.eqb c sep) eqn:Hc.
    + apply Ascii.eqb_eq in Hc. subst c. rewrite !Split_cons_sep, IH.
      rewrite removelast_cons, last_cons by assumption. reflexivity.
    + rewrite !(Split_cons_other _ _ _ Hc), IH.
      destruct (Split s sep) as [|p ps]; [contradiction|].
      destruct ps as [|q qs]; [reflexivity|].
      rewrite removelast_cons by discriminate.
      simpl hd. simpl tl. simpl app at 1.
      rewrite (removelast_cons _ (String c p)) by discriminate.
      rewrite !last_cons by discriminate. reflexivity.
Qed.

Lemma has_byte_append (c : ascii) (a b : string) :
  has_byte c (a ++ b) = has_byte c a || has_byte c b.
Proof.
  induction a as [|x a IH]; [reflexivity|].
  rewrite append_cons. simpl. rewrite IH. apply orb_assoc.
Qed.

Lemma plain_with_extension (elem : string) :
  has_byte slash elem = false -> plain (elem ++ ".yaml").
Proof.
  intros He.
  assert (Hlen : (5 <= String.length (elem ++ ".yaml"))%nat).
  { rewrite length_append. simpl. lia. }
  repeat split.
  - intros Heq. rewrite Heq in Hlen. simpl in Hlen. lia.
  - intros Heq. rewrite Heq in Hlen. simpl in Hlen. lia.
  - intros Heq. rewrite Heq in Hlen. simpl in Hlen. lia.
  - rewrite has_byte_append, He. reflexivity.
Qed.

(** The elements of the file name [leaf.yaml] are plain when those of the
    leaf before its last are not empty, ["."] or [".."]. *)
Lemma leaf_file_plain (leaf : string) :
  Forall (fun elem => elem <> "" /\ elem <> "." /\ elem <> "..")
         (removelast (Split leaf slash)) ->
  Forall plain (Split (leaf ++ ".yaml") slash).
Proof.
  intros Hl. rewrite Split_append_no_sep by reflexivity.
  pose proof (Split_pieces_no_sep leaf slash) as Hp.
  pose proof (Split_not_nil leaf slash) as Hn.
  apply Forall_app. split.
  - assert (Hrl : Forall (fun piece => has_byte slash piece = false)
                    (removelast (Split leaf slash))).
    { rewrite (app_removelast_last "" Hn) in Hp.
      apply Forall_app in Hp. tauto. }
    revert Hl Hrl. generalize (removelast (Split leaf slash)).
    induction l as [|e l IH]; intros Hl Hrl; [constructor|].
    inversion Hl as [|? ? (H1 & H2 & H3) Hl']; subst.
    inversion Hrl; subst.
    constructor; [repeat split; assumption|apply IH; assumption].
  - constructor; [|constructor]. apply plain_with_extension.
    rewrite (app_removelast_last "" Hn) in Hp.
    apply Forall_app in Hp. destruct Hp as [_ Hp].
    inversion Hp; assumption.
Qed.

(** The file written for a secret below the base path, found by the walk
    of a push from the same directory, is pushed to the secret's path.
    [targetDir] is the directory both derive. *)
Lemma vaultPath_of_written (kvEngine subPath targetDir leaf : string) :
  Forall plain (Split (leaf ++ ".yaml") slash) ->
  PushSecretsFromFiles_vaultPath kvEngine subPath targetDir
    (Join2 targetDir (leaf ++ ".yaml"))
  = Ok (if negb (String.eqb subPath "")
        then kvEngine ++ "/metadata/" ++ subPath ++ "/" ++ leaf
        else kvEngine ++ "/metadata/" ++ leaf).
Proof.
  intros Hp. unfold PushSecretsFromFiles_vaultPath.
  rewrite <- (Join_Split (leaf ++ ".yaml") slash) at 1.
  rewrite (Rel_below _ _ (Split_not_nil _ _) Hp).
  change "/" with (String slash "").
  rewrite Join_Split, TrimSuffix_append.
  change Separator with slash. rewrite ReplaceAll_same.
  destruct (negb (String.eqb subPath "")); reflexivity.
Qed.

Lemma base_of_path (engine more : string) :
  has_byte slash engine = false ->
  more = "" \/ (exists sub, sub <> "" /\ more = String slash sub) ->
  Split (engine ++ "/metadata" ++ more) slash
  = engine :: "metadata"
      :: match more with
         | String _ sub => Split sub slash
         | EmptyString => []
         end.
Proof.
  intros He [-> | (sub & _ & ->)].
  - change (engine ++ "/metadata" ++ "")
      with (engine ++ String slash "metadata").
    rewrite Split_append, (Split_no_sep _ _ He). reflexivity.
  - change (engine ++ "/metadata" ++ String slash sub)
      with (engine ++ String slash ("metadata" ++ String slash sub)).
    apply Split_two; [assumption|reflexivity].
Qed.

(** C1, on the code. A secret path [base/leaf] below a metadata base path
    [engine/metadata] or [engine/metadata/sub] (a non-empty [sub]), written
    to a file by [writeSecretToFile] under any directory and mapped back by
    the walk of [PushSecretsFromFiles] from the same directory, gives the
    secret path again, provided no element of the leaf suffix before its
    last one is empty, ["."] or [".."]. *)
Theorem path_round_trip (engine more dir leaf : string) :
  has_byte slash engine = false ->
  more = "" \/ (exists sub, sub <> "" /\ more = String slash sub) ->
  leaf <> "" ->
  Forall (fun elem => elem <> "" /\ elem <> "." /\ elem <> "..")
         (removelast (Split leaf slash)) ->
  pull_then_push ((engine ++ "/metadata" ++ more) ++ "/" ++ leaf)
                 (engine ++ "/metadata" ++ more) dir
  = Ok ((engine ++ "/metadata" ++ more) ++ "/" ++ leaf).
Proof.
  intros He Hm Hleaf Hplain.
  pose proof (leaf_file_plain _ Hplain) as Hp.
  pose proof (base_of_path _ _ He Hm) as Hparts.
  unfold pull_then_push, writeSecretToFile_filePath,
    PushSecretsFromFiles_base.
  rewrite TrimPrefix_append.
  rewrite (TrimPrefix_append "/" leaf).
  apply String.eqb_neq in Hleaf. rewrite Hleaf. rewrite Hparts.
  destruct Hm as [-> | (sub & Hsub & ->)].
  - cbn [length Nat.ltb Nat.leb nth orb negb String.eqb Ascii.eqb
         Bool.eqb].
    rewrite (vaultPath_of_written engine "" dir leaf Hp).
    change (negb (String.eqb "" "")) with false. cbv iota.
    f_equal.
    rewrite append_empty_r, append_assoc. reflexivity.
  - pose proof (Split_not_nil sub slash) as Hn.
    assert (Hlen : (2 <? length (engine :: "metadata" :: Split sub slash))%nat
                   = true).
    { apply Nat.ltb_lt. destruct (Split sub slash); [contradiction|].
      simpl. lia. }
    assert (Hlen' : (length (engine :: "metadata" :: Split sub slash) <? 2)%nat
                    = false).
    { apply Nat.ltb_ge. simpl. lia. }
    rewrite Hlen, Hlen'.
    change (nth 1 (engine :: "metadata" :: Split sub slash) "")
      with "metadata".
    change (nth 0 (engine :: "metadata" :: Split sub slash) "")
      with engine.
    change (skipn 2 (engine :: "metadata" :: Split sub slash))
      with (Split sub slash).
    change (Join (Split sub slash) "/")
      with (Join (Split sub slash) (String slash "")).
    rewrite Join_Split.
    cbn [orb negb String.eqb Ascii.eqb Bool.eqb].
    rewrite (vaultPath_of_written engine sub (Join2 dir sub) leaf Hp).
    apply String.eqb_neq in Hsub. rewrite Hsub. cbn [negb].
    f_equal. rewrite !append_assoc. reflexivity.
Qed.

Lemma path_round_trip_witness :
  pull_then_push (("secret" ++ "/metadata" ++ "/app") ++ "/" ++ "db/creds")
                 ("secret" ++ "/metadata" ++ "/app") "./vault-secrets"
  = Ok (("secret" ++ "/metadata" ++ "/app") ++ "/" ++ "db/creds").
Proof.
  apply (path_round_trip "secret" "/app" "./vault-secrets" "db/creds").
  - reflexivity.
  - right. exists "app". split; [discriminate|reflexivity].
  - discriminate.
  - repeat constructor; discriminate.
Defined.

(** C1, as stated: the round trip for every leaf suffix. It fails for the
    secret ["kv/metadata/app/./db"] pulled from ["kv/metadata"] into
    ["out"]: [filepath.Join] cleans the file path to ["out/app/db.yaml"],
    which is pushed to ["kv/metadata/app/db"]. *)
Lemma path_round_trip_counterexample :
  ~ (forall engine more dir leaf : string,
        has_byte slash engine = false ->
        more = "" \/ (exists sub, more = String slash sub) ->
        leaf <> "" ->
        pull_then_push ((engine ++ "/metadata" ++ more) ++ "/" ++ leaf)
                       (engine ++ "/metadata" ++ more) dir
        = Ok ((engine ++ "/metadata" ++ more) ++ "/" ++ leaf)).
Proof.
  intros H.
  specialize (H "kv" "" "out" "app/./db" eq_refl (or_introl eq_refl)).
  assert (Hp : pull_then_push "kv/metadata/app/./db" "kv/metadata" "out"
               = Ok "kv/metadata/app/db") by reflexivity.
  change (("kv" ++ "/metadata" ++ "") ++ "/" ++ "app/./db")
    with "kv/metadata/app/./db" in H.
  change ("kv" ++ "/metadata" ++ "") with "kv/metadata" in H.
  rewrite Hp in H. specialize (H ltac:(discriminate)). discriminate.
Qed.

(** A base path with a trailing separator is not restored either: the
    walker names the secret ["kv/metadata//db"], the push names it
    ["kv/metadata/db"]. *)
Lemma path_round_trip_trailing_separator :
  pull_then_push "kv/metadata//db" "kv/metadata/" "out"
  = Ok "kv/metadata/db".
Proof. reflexivity. Qed.

End RoundTrip.

(** ** The short hash *)

Section ShortHashFacts.

Local Open Scope Z_scope.

Lemma wrap64_range (z : Z) : - 2 ^ 63 <= wrap64 z < 2 ^ 63.
Proof.
  unfold wrap64. pose proof (Z.mod_pos_bound (z + 2 ^ 63) (2 ^ 64)). lia.
Qed.

Lemma rolling_hash_range (content : string) :
  - 2 ^ 63 <= rolling_hash content < 2 ^ 63.
Proof.
  unfold rolling_hash. generalize (runes content). intros l.
  assert (H0 : - 2 ^ 63 <= 0 < 2 ^ 63) by lia.
  revert H0. generalize 0. induction l as [|c l IH]; intros h Hh;
    [exact Hh|].
  simpl. apply IH. apply wrap64_range.
Qed.

Lemma hex_digit_is_hex (v : Z) :
  0 <= v < 16 -> Fmt.is_hex_digit (Fmt.hex_digit v) = true.
Proof.
  intros Hv.
  assert (Hc : v = 0 \/ v = 1 \/ v = 2 \/ v = 3 \/ v = 4 \/ v = 5 \/ v = 6
               \/ v = 7 \/ v = 8 \/ v = 9 \/ v = 10 \/ v = 11 \/ v = 12
               \/ v = 13 \/ v = 14 \/ v = 15) by lia.
  repeat (destruct Hc as [-> | Hc]; [reflexivity|]). subst v. reflexivity.
Qed.

(** With enough fuel, a value below [16 ^ k] has between one and [k]
    digits, all hexadecimal. *)
Lemma hex_digits_spec (fuel : nat) :
  forall (k : nat) (v : Z) (acc : string),
    (1 <= k <= fuel)%nat -> 0 <= v < 16 ^ Z.of_nat k ->
    Fmt.all_hex acc = true ->
    Fmt.all_hex (Fmt.hex_digits fuel v acc) = true
    /\ (String.length acc + 1
        <= String.length (Fmt.hex_digits fuel v acc)
        <= String.length acc + k)%nat.
Proof.
  induction fuel as [|fuel IH]; intros k v acc Hk Hv Hacc; [lia|].
  simpl Fmt.hex_digits.
  assert (Hd : Fmt.is_hex_digit (Fmt.hex_digit (v mod 16)) = true).
  { apply hex_digit_is_hex. apply Z.mod_pos_bound. lia. }
  destruct (v / 16 =? 0) eqn:Hq.
  - simpl. rewrite Hd, Hacc. split; [reflexivity|lia].
  - apply Z.eqb_neq in Hq.
    assert (Hk2 : (2 <= k)%nat).
    { destruct k as [|[|k]]; [lia| |lia].
      exfalso. apply Hq. apply Z.div_small. simpl in Hv. lia. }
    destruct (IH (k - 1)%nat (v / 16)
                 (String (Fmt.hex_digit (v mod 16)) acc))
      as [Hall Hlen].
    + lia.
    + split; [apply Z.div_pos; lia|].
      apply Z.div_lt_upper_bound; [lia|].
      replace (Z.of_nat k) with (1 + Z.of_nat (k - 1)) in Hv by lia.
      rewrite Z.pow_add_r in Hv by lia. lia.
    + simpl. rewrite Hd, Hacc. reflexivity.
    + split; [exact Hall|]. simpl in Hlen. lia.
Qed.

Lemma all_hex_append (a b : string) :
  Fmt.all_hex (a ++ b) = Fmt.all_hex a && Fmt.all_hex b.
Proof.
  induction a as [|c a IH]; [reflexivity|].
  rewrite append_cons. simpl. rewrite IH. apply andb_assoc.
Qed.

Lemma zeros_spec (n : nat) :
  Fmt.all_hex (Fmt.zeros n) = true /\ String.length (Fmt.zeros n) = n.
Proof.
  induction n as [|n [IH1 IH2]]; [split; reflexivity|].
  simpl. rewrite IH1, IH2. split; reflexivity.
Qed.

(** [%07x] of a value in [0, 16^7): seven hexadecimal digits. *)
Lemma x07_seven_digits (v : Z) :
  0 <= v < 16 ^ 7 ->
  String.length (Fmt.x07 v) = 7%nat /\ Fmt.all_hex (Fmt.x07 v) = true.
Proof.
  intros Hv. unfold Fmt.x07, Fmt.x.
  assert (Hneg : (v <? 0) = false) by (apply Z.ltb_ge; lia).
  rewrite Hneg.
  destruct (hex_digits_spec 16 7 v "") as [Hall Hlen];
    [lia|exact Hv|reflexivity|].
  change (String.length "") with O in Hlen.
  destruct (zeros_spec (7 - String.length (Fmt.hex_digits 16 v ""))%nat)
    as [Hz Hzl].
  rewrite length_append, all_hex_append, Hzl, Hz, Hall.
  split; [lia|reflexivity].
Qed.

(** Whenever the accumulated hash is not the least [int], the short hash
    is seven hexadecimal digits. *)
Lemma generateShortHash_seven_digits (content : string) :
  rolling_hash content <> - 2 ^ 63 ->
  String.length (generateShortHash content) = 7%nat
  /\ Fmt.all_hex (generateShortHash content) = true.
Proof.
  intros Hmin. unfold generateShortHash.
  pose proof (rolling_hash_range content) as Hr.
  set (h := rolling_hash content) in *.
  assert (Hh : 0 <= (if h <? 0 then wrap64 (- h) else h)).
  { destruct (h <? 0) eqn:Hn; [|apply Z.ltb_ge in Hn; lia].
    apply Z.ltb_lt in Hn. unfold wrap64.
    rewrite Z.mod_small by lia. lia. }
  apply x07_seven_digits.
  pose proof (Z.rem_bound_pos _ 268435455 Hh ltac:(lia)). lia.
Qed.

(** C9. The YAML text ["token: ervhsrzmqcqsbh\n"] accumulates the least
    64-bit integer, which [-hash] leaves negative; the remainder is
    [-128] and the short hash is ["-000080"]: seven characters, the first
    of which is a sign and not a hexadecimal digit. *)
Theorem generateShortHash_least_int :
  rolling_hash ("token: ervhsrzmqcqsbh" ++ nl) = - 2 ^ 63
  /\ generateShortHash ("token: ervhsrzmqcqsbh" ++ nl) = "-000080"
  /\ Fmt.all_hex (generateShortHash ("token: ervhsrzmqcqsbh" ++ nl))
     = false.
Proof. repeat split; vm_compute; reflexivity. Qed.

End ShortHashFacts.

(** ** The dry run *)

Section DryRun.

Context {Payload : Type} (w : World Payload).

Lemma generateUnifiedDiff_same (text filename : string) :
  generateUnifiedDiff text text filename = "".
Proof. unfold generateUnifiedDiff. rewrite String.eqb_refl. reflexivity. Qed.

(** C2. Diffing a payload against itself renders the empty text, whatever
    the label; the dry run then decides "unchanged" and [showDryRunDiff]
    does not call [outputDiff]: all it prints is the debug line of
    [GetSecret]. *)
Theorem diff_idempotence (X : Payload) (label : string) :
  generateUnifiedDiff (marshal_bytes w X) (marshal_bytes w X) label = ""
  /\ dry_run_diff w label (Ok X) X = ""
  /\ (httpGet w (GetSecret_dataPath label) = Ok X ->
      shows_diff (fst (showDryRunDiff w label X)) = false
      /\ showDryRunDiff w label X
         = ([Printf ("Debug: Getting secret from path: " ++ label
                     ++ " (converted to: " ++ GetSecret_dataPath label
                     ++ ")" ++ nl)], None)).
Proof.
  split; [apply generateUnifiedDiff_same|].
  split; [apply generateUnifiedDiff_same|].
  intros Hget. unfold showDryRunDiff, GetSecret. rewrite Hget.
  unfold dry_run_diff. rewrite generateUnifiedDiff_same.
  split; reflexivity.
Qed.

Lemma fold_left_append (pieces : list string) (acc : string) :
  fold_left String.append pieces acc
  = acc ++ fold_right String.append "" pieces.
Proof.
  revert acc. induction pieces as [|p pieces IH]; intros acc.
  - simpl. rewrite append_empty_r. reflexivity.
  - simpl. rewrite IH, append_assoc. reflexivity.
Qed.






End DryRun.


Lemma diff_idempotence_witness :
  shows_diff (fst (showDryRunDiff Example.world "kv/metadata/db" Example.db))
  = false.
Proof.
  apply (diff_idempotence Example.world Example.db "kv/metadata/db").
  reflexivity.
Defined.

(** ** Pull: which failures are fatal *)

Section Pull.

Context {Payload : Type} (w : World Payload).









End Pull.


(** The example store pulled into ["out"]: the key [broken] and the file
    of [db] each cost one warning, and the pull returns [nil]. *)
Example pull_example :
  PullSecretsToFiles Example.world 2 "kv/metadata" "out"
  = (Returned None,
     [Printf ("Debug: Getting secret from path: kv/data/app/metadata/config"
              ++ " (converted to: kv/data/app/metadata/config)" ++ nl);
      Printf ("Debug: Getting secret from path: kv/data/broken"
              ++ " (converted to: kv/data/broken)" ++ nl);
      Printf ("Warning: Failed to get secret kv/metadata/broken: HTTP 404: "
              ++ nl);
      Printf ("Debug: Getting secret from path: kv/data/db"
              ++ " (converted to: kv/data/db)" ++ nl);
      DirCreated "out/app/metadata";
      FileWritten "out/app/metadata/config.yaml"
                  ("port: 8200" ++ nl ++ "tls: true" ++ nl);
      Printf ("Written: out/app/metadata/config.yaml" ++ nl);
      DirCreated "out";
      Printf ("Warning: Failed to write secret kv/metadata/db: "
              ++ "failed to write file out/db.yaml: permission denied"
              ++ nl)]).
Proof. vm_compute. reflexivity. Qed.

(** The engine [team]: the folder [gone] cannot be listed, the pull
    returns that error, the key [z] behind it is not fetched and no file
    is written. *)
Example pull_abort_example :
  PullSecretsToFiles Example.world 2 "team/metadata" "out"
  = (Returned
       (Some ("failed to pull secrets: failed to list secrets at "
              ++ "team/metadata/gone/metadata: HTTP 404: ")),
     [Printf ("Debug: Getting secret from path: team/metadata/a"
              ++ " (converted to: team/data/a)" ++ nl)]).
Proof. vm_compute. reflexivity. Qed.

(** ** Push: the first error ends the walk *)

Section Push.

Context {Payload : Type} (w : World Payload).

(** The events of the entries the callback accepts. *)
Lemma Walk_all_accepted (fn : WalkEntry -> list (Event Payload) * option error)
    (entries : list WalkEntry) :
  Forall (fun entry => snd (fn entry) = None) entries ->
  Walk fn entries = (flat_map (fun entry => fst (fn entry)) entries, None).
Proof.
  induction entries as [|entry entries IH]; intros Hall; [reflexivity|].
  inversion Hall as [|? ? He Hrest]; subst. simpl.
  destruct (fn entry) as [done [err|]]; [discriminate|].
  rewrite (IH Hrest). reflexivity.
Qed.

(** The first entry the callback refuses ends the walk: its error is
    returned and the entries behind it are not visited. *)
Lemma Walk_first_error (fn : WalkEntry -> list (Event Payload) * option error)
    (before after : list WalkEntry) (entry : WalkEntry)
    (done : list (Event Payload)) (err : error) :
  Forall (fun entry => snd (fn entry) = None) before ->
  fn entry = (done, Some err) ->
  Walk fn (before ++ entry :: after)
  = ((flat_map (fun entry => fst (fn entry)) before ++ done)%list,
     Some err).
Proof.
  induction before as [|b before IH]; intros Hall Hfn.
  - simpl. rewrite Hfn. reflexivity.
  - inversion Hall as [|? ? Hb Hrest]; subst. simpl.
    destruct (fn b) as [done_b [err_b|]]; [discriminate|].
    rewrite (IH Hrest Hfn). simpl. rewrite app_assoc. reflexivity.
Qed.

(** C6. During a push from a valid metadata path and an existing
    directory, the first entry of the walk whose callback returns an error
    ends [PushSecretsFromFiles] with that error: the events are those of
    the entries before it and its own, and nothing is requested for the
    entries behind it. The callback returns an error for a file that
    cannot be read and for one that cannot be decoded, each wrapped with
    the file's name, and, outside a dry run, the error of [PutSecret]. *)
Theorem push_fail_fast :
  (forall inputDir metadataPath dryRun kvEngine subPath baseDir
          before entry after done err,
      PushSecretsFromFiles_base inputDir metadataPath
      = Ok (kvEngine, subPath, baseDir) ->
      dir_exists w baseDir = true ->
      walk_entries w baseDir = (before ++ entry :: after)%list ->
      Forall (fun e => snd (push_entry w dryRun kvEngine subPath baseDir e)
                       = None) before ->
      push_entry w dryRun kvEngine subPath baseDir entry
      = (done, Some err) ->
      PushSecretsFromFiles w inputDir metadataPath dryRun
      = ((flat_map
            (fun e => fst (push_entry w dryRun kvEngine subPath baseDir e))
            before ++ done)%list,
         Some err))
  /\ (forall dryRun kvEngine subPath baseDir filePath err,
        HasSuffix filePath ".yaml" = true ->
        ReadFile w filePath = Err err ->
        push_entry w dryRun kvEngine subPath baseDir
                   (mkWalkEntry filePath false None)
        = ([], Some ("failed to read file " ++ filePath ++ ": " ++ err)))
  /\ (forall dryRun kvEngine subPath baseDir filePath yamlData err,
        HasSuffix filePath ".yaml" = true ->
        ReadFile w filePath = Ok yamlData ->
        yamlUnmarshal w yamlData = Err err ->
        push_entry w dryRun kvEngine subPath baseDir
                   (mkWalkEntry filePath false None)
        = ([], Some ("failed to parse YAML in " ++ filePath ++ ": "
                     ++ err)))
  /\ (forall kvEngine subPath baseDir filePath yamlData secretData
             vaultPath err,
        HasSuffix filePath ".yaml" = true ->
        ReadFile w filePath = Ok yamlData ->
        yamlUnmarshal w yamlData = Ok secretData ->
        PushSecretsFromFiles_vaultPath kvEngine subPath baseDir filePath
        = Ok vaultPath ->
        httpPost w (PutSecret_dataPath vaultPath) secretData = Some err ->
        push_entry w false kvEngine subPath baseDir
                   (mkWalkEntry filePath false None)
        = ([Printf ("Pushing: " ++ vaultPath ++ nl);
            PutRequest (PutSecret_dataPath vaultPath) secretData],
           Some err)).
Proof.
  split; [|split; [|split]].
  - intros inputDir metadataPath dryRun kvEngine subPath baseDir
           before entry after done err Hbase Hdir Hwalk Hbefore Hentry.
    unfold PushSecretsFromFiles. rewrite Hbase, Hdir, Hwalk. simpl negb.
    cbv iota. apply Walk_first_error; assumption.
  - intros dryRun kvEngine subPath baseDir filePath err Hs Hr.
    unfold push_entry. simpl. rewrite Hs, Hr. reflexivity.
  - intros dryRun kvEngine subPath baseDir filePath yamlData err Hs Hr Hu.
    unfold push_entry. simpl. rewrite Hs, Hr, Hu. reflexivity.
  - intros kvEngine subPath baseDir filePath yamlData secretData vaultPath
           err Hs Hr Hu Hv Hp.
    unfold push_entry, PutSecret. simpl. rewrite Hs, Hr, Hu, Hv, Hp.
    reflexivity.
Qed.

End Push.

Lemma push_fail_fast_witness :
  PushSecretsFromFiles Example.world "in" "kv/metadata" false
  = ([Printf ("Pushing: kv/metadata/a" ++ nl);
      PutRequest "kv/data/a" Example.db;
      Printf ("Pushing: kv/metadata/b" ++ nl);
      PutRequest "kv/data/b" Example.db],
     Some "HTTP 403: permission denied").
Proof.
  destruct (push_fail_fast Example.world) as (Hfirst & _).
  exact (Hfirst "in" "kv/metadata" false "kv" "" "in"
           [mkWalkEntry "in" true None;
            mkWalkEntry "in/a.yaml" false None]
           (mkWalkEntry "in/b.yaml" false None)
           [mkWalkEntry "in/c.yaml" false None;
            mkWalkEntry "in/d.yaml" false None;
            mkWalkEntry "in/e.yaml" false None]
           [Printf ("Pushing: kv/metadata/b" ++ nl);
            PutRequest "kv/data/b" Example.db]
           "HTTP 403: permission denied"
           eq_refl eq_refl eq_refl
           ltac:(repeat constructor) eq_refl).
Defined.

(** A dry run over the same files: the file [c] cannot be read, which
    ends the walk behind the diffs of [a] and [b]. *)
Example push_dry_run_example :
  PushSecretsFromFiles Example.world "in" "kv/metadata" true
  = ([Printf ("Debug: Getting secret from path: kv/metadata/a"
              ++ " (converted to: kv/data/a)" ++ nl);
      OutputDiff
        (Join ["diff --git a/kv/metadata/a b/kv/metadata/a";
               "new file mode 100644";
               "index 0000000..908e200";
               "--- /dev/null";
               "+++ b/kv/metadata/a";
               "+user: admin";
               "+";
               ""] nl);
      Printf ("Debug: Getting secret from path: kv/metadata/b"
              ++ " (converted to: kv/data/b)" ++ nl);
      OutputDiff
        (Join ["diff --git a/kv/metadata/b b/kv/metadata/b";
               "new file mode 100644";
               "index 0000000..908e200";
               "--- /dev/null";
               "+++ b/kv/metadata/b";
               "+user: admin";
               "+";
               ""] nl)],
     Some "failed to read file in/c.yaml: permission denied").
Proof. vm_compute. reflexivity. Qed.

(** A file that cannot be decoded ends the push before anything is
    requested for the file behind it. *)
Example push_decode_example :
  PushSecretsFromFiles Example.world "bad" "kv/metadata" false
  = ([], Some ("failed to parse YAML in bad/d.yaml: "
               ++ "yaml: did not find expected ',' or ']'")).
Proof. vm_compute. reflexivity. Qed.

(** ** The hunks of the unified diff *)

Section Hunks.

Variables existingLines newLines : list string.

Local Abbreviation differs := (differ existingLines newLines).
Local Abbreviation lines_of := (index_lines existingLines newLines).
Local Abbreviation hunk := (hunk_lines existingLines newLines).

Lemma writeHunk_counts (lines : list string) (oldCount newCount : nat) :
  fold_left
    (fun counts line =>
       let '(oldCount, newCount) := counts in
       let oldCount :=
         if HasPrefix line "-" || HasPrefix line " "
         then S oldCount else oldCount in
       let newCount :=
         if HasPrefix line "+" || HasPrefix line " "
         then S newCount else newCount in
       (oldCount, newCount))
    lines (oldCount, newCount)
  = ((oldCount + length (List.filter is_old_line lines))%nat,
     (newCount + length (List.filter is_new_line lines))%nat).
Proof.
  revert oldCount newCount.
  induction lines as [|line lines IH]; intros oldCount newCount.
  - simpl. rewrite !Nat.add_0_r. reflexivity.
  - simpl fold_left. rewrite IH. simpl List.filter.
    unfold is_old_line at 2, is_new_line at 2.
    destruct (HasPrefix line "-" || HasPrefix line " ");
      destruct (HasPrefix line "+" || HasPrefix line " ");
      simpl length; f_equal; lia.
Qed.

Lemma writeHunk_lines (lines : list string) (diff : string) :
  fold_left (fun diff line => diff ++ line ++ nl) lines diff
  = diff ++ fold_right (fun line rest => line ++ nl ++ rest) "" lines.
Proof.
  revert diff. induction lines as [|line lines IH]; intros diff.
  - simpl. rewrite append_empty_r. reflexivity.
  - simpl. rewrite IH, !append_assoc. reflexivity.
Qed.

(** [writeHunk] appends the rendered hunk to the buffer. *)
Lemma writeHunk_render (diff : string) (start : nat) (end_ : Z)
    (oldLen newLen : nat) (lines : list string) :
  writeHunk diff start end_ oldLen newLen lines
  = diff ++ render_hunk start lines.
Proof.
  unfold writeHunk, render_hunk.
  rewrite writeHunk_counts. simpl Nat.add.
  rewrite writeHunk_lines, !append_assoc. reflexivity.
Qed.

Lemma render_hunks_app (ranges : list (nat * nat)) (first stop : nat) :
  render_hunks existingLines newLines (ranges ++ [(first, stop)])
  = render_hunks existingLines newLines ranges
    ++ render_hunk (first - 3) (hunk first stop).
Proof.
  induction ranges as [|r ranges IH].
  - simpl. rewrite append_empty_r. reflexivity.
  - simpl. rewrite IH, append_assoc. reflexivity.
Qed.

(** The change of an index is appended to the lines of the hunk. *)
Lemma change_lines_app (i : nat) (hunkLines : list string) :
  change_lines existingLines newLines i hunkLines
  = (hunkLines ++ change_lines existingLines newLines i [])%list.
Proof.
  unfold change_lines.
  destruct ((i <? length existingLines)%nat
            && negb (String.eqb (line_at existingLines i) ""));
    destruct ((i <? length newLines)%nat
              && negb (String.eqb (line_at newLines i) ""));
    simpl; rewrite ?app_nil_r, <- ?app_assoc; reflexivity.
Qed.

Lemma seq_snoc (first i : nat) :
  first <= i -> seq first (S i - first) = (seq first (i - first) ++ [i])%list.
Proof.
  intros Hle. replace (S i - first) with (S (i - first)) by lia.
  rewrite seq_S. f_equal. f_equal. lia.
Qed.

Lemma hunk_snoc (first i : nat) :
  first <= i -> hunk first (S i) = (hunk first i ++ lines_of i)%list.
Proof.
  intros Hle. unfold hunk_lines.
  rewrite (seq_snoc _ _ Hle), flat_map_app. simpl flat_map.
  rewrite app_nil_r, app_assoc. reflexivity.
Qed.

Lemma hunk_start (i : nat) :
  hunk i (S i)
  = (context_before existingLines (i - 3) i ++ lines_of i)%list.
Proof.
  unfold hunk_lines. replace (S i - i) with 1 by lia. simpl.
  rewrite app_nil_r. reflexivity.
Qed.

(** A differing index puts at least one line in the hunk, and none of its
    lines is a context line. *)
Lemma change_lines_marks (i : nat) :
  differs i = true ->
  exists front mark,
    change_lines existingLines newLines i [] = (front ++ [mark])%list
    /\ HasPrefix mark " " = false.
Proof.
  unfold differ, change_lines. intros Hd.
  destruct (i <? length existingLines)%nat eqn:Ho;
    destruct (i <? length newLines)%nat eqn:Hn;
    destruct (String.eqb (line_at existingLines i) "") eqn:Eo;
    destruct (String.eqb (line_at newLines i) "") eqn:En;
    simpl;
    try (eexists [], _; split; [reflexivity|reflexivity]);
    try (eexists [_], _; split; [reflexivity|reflexivity]);
    exfalso.
  all: try (apply String.eqb_eq in Eo); try (apply String.eqb_eq in En).
  all: try (rewrite Eo, En in Hd; discriminate).
  all: unfold line_at in *; rewrite ?Ho, ?Hn in *.
  all: try (rewrite Eo in Hd; discriminate).
  all: try (rewrite En in Hd; discriminate).
  all: discriminate.
Qed.

Lemma leading_context_run (run rest : list string) (mark : string) :
  Forall (fun line => HasPrefix line " " = true) run ->
  HasPrefix mark " " = false ->
  leading_context (run ++ mark :: rest) = length run.
Proof.
  intros Hrun Hmark. induction Hrun as [|line run Hline _ IH].
  - simpl. rewrite Hmark. reflexivity.
  - simpl. rewrite Hline, IH. reflexivity.
Qed.

Lemma contextCount_run (front run : list string) (mark : string) :
  Forall (fun line => HasPrefix line " " = true) run ->
  HasPrefix mark " " = false ->
  contextCount (front ++ [mark] ++ run) = length run.
Proof.
  intros Hrun Hmark. unfold contextCount.
  rewrite !rev_app_distr. simpl rev. rewrite <- app_assoc. simpl app.
  rewrite leading_context_run; [apply length_rev| |assumption].
  apply Forall_rev. exact Hrun.
Qed.

(** Indices that do not differ each give one context line. *)
Lemma same_run (from count : nat) :
  (forall j, from <= j < from + count -> differs j = false) ->
  flat_map lines_of (seq from count)
  = map (fun j => " " +:+ line_at existingLines j) (seq from count).
Proof.
  revert from. induction count as [|count IH]; intros from Hsame;
    [reflexivity|].
  simpl. unfold index_lines at 1. rewrite (Hsame from) by lia.
  simpl. f_equal. apply IH. intros j Hj. apply Hsame. lia.
Qed.

Lemma hunk_split (first last stop : nat) :
  first <= last < stop ->
  hunk first stop
  = (hunk first last ++ lines_of last
     ++ flat_map lines_of (seq (S last) (stop - S last)))%list.
Proof.
  intros Hr. unfold hunk_lines.
  replace (stop - first) with ((last - first) + (1 + (stop - S last)))
    by lia.
  rewrite !seq_app, !flat_map_app. simpl seq at 2. simpl flat_map at 2.
  rewrite app_nil_r, <- app_assoc.
  replace (first + (last - first)) with last by lia.
  replace (last + 1) with (S last) by lia. reflexivity.
Qed.

(** The lines at the end of a hunk that start with a space are those of
    the indices behind its last differing one. *)
Lemma contextCount_hunk (first last stop : nat) :
  first <= last < stop ->
  differs last = true ->
  (forall j, last < j < stop -> differs j = false) ->
  contextCount (hunk first stop) = stop - S last.
Proof.
  intros Hr Hd Hsame. rewrite (hunk_split _ _ _ Hr).
  unfold index_lines at 1. rewrite Hd.
  destruct (change_lines_marks last Hd) as (front & mark & -> & Hmark).
  rewrite same_run by (intros j Hj; apply Hsame; lia).
  rewrite <- app_assoc, app_assoc.
  rewrite contextCount_run.
  - rewrite length_map, length_seq. reflexivity.
  - apply Forall_map. apply Forall_forall. intros j _.
    exact (prefix_append " " _).
  - exact Hmark.
Qed.

Lemma contextCount_le (lines : list string) :
  contextCount lines <= length lines.
Proof.
  unfold contextCount. rewrite <- (length_rev lines).
  induction (rev lines) as [|line l IH]; simpl; [lia|].
  destruct (HasPrefix line " "); lia.
Qed.







Variable maxLines : nat.
Variable header : string.

Local Abbreviation invariant :=
  (diff_invariant existingLines newLines maxLines header).

Lemma covered_app (ranges : list (nat * nat)) (range : nat * nat) (k : nat) :
  covered ranges k \/ fst range <= k < snd range ->
  covered (ranges ++ [range]) k.
Proof.
  intros [Hc | Hk]; apply Exists_app; [left; exact Hc|].
  right. constructor. exact Hk.
Qed.

Lemma diff_step_differs (st : DiffState) (i : nat) :
  differs i = true ->
  diff_step existingLines newLines st i
  = mkDiffState (diff st) true
      (if inHunk st then hunkStart st else i - 3)
      (change_lines existingLines newLines i
         (if inHunk st then hunkLines st
          else context_before existingLines (i - 3) i)).
Proof.
  intros Hd. unfold diff_step. unfold differ in Hd. rewrite Hd.
  destruct st as [d [|] s l]; reflexivity.
Qed.

Lemma diff_step_same (st : DiffState) (i : nat) :
  differs i = false ->
  diff_step existingLines newLines st i
  = if inHunk st then
      let lines := (hunkLines st ++ lines_of i)%list in
      if (3 <=? contextCount lines)%nat then
        mkDiffState
          (writeHunk (diff st) (hunkStart st)
                     (Z.of_nat i - Z.of_nat (contextCount lines) + 1)
                     (length existingLines) (length newLines)
                     (firstn (length lines - contextCount lines + 3) lines))
          false (hunkStart st) lines
      else mkDiffState (diff st) true (hunkStart st) lines
    else st.
Proof.
  intros Hd. unfold diff_step, index_lines. rewrite Hd.
  unfold differ in Hd. rewrite Hd. reflexivity.
Qed.






End Hunks.



(** Two texts of eleven and twelve lines that differ at the indices 1, 9
    and 11: two hunks, the second with a context line between its
    changes. *)
Example unified_diff_example :
  generateUnifiedDiff
    (Join ["a"; "b"; "c"; "d"; "e"; "f"; "g"; "h"; "i"; "j"; "k"; ""] nl)
    (Join ["a"; "B"; "c"; "d"; "e"; "f"; "g"; "h"; "i"; "J"; "k"; "l"; ""]
          nl)
    "p/x"
  = Join ["diff --git a/p/x b/p/x";
          "index 313aebe..b1427ed 100644";
          "--- a/p/x";
          "+++ b/p/x";
          "@@ -1,5 +1,5 @@";
          " a"; "-b"; "+B"; " c"; " d"; " e";
          "@@ -7,6 +7,7 @@";
          " g"; " h"; " i"; "-j"; "+J"; " k"; "+l"; " ";
          ""] nl.
Proof. vm_compute. reflexivity. Qed.

(** C10. At an index where the texts differ, the lines added to the hunk
    are a [-] line only for a non-empty old line and a [+] line only for a
    non-empty new line, in the loop of [generateUnifiedDiff]. So where a
    non-empty line stands against an empty one, the hunk gets the marker
    of one side only. *)
Theorem empty_lines_unmarked (existingLines newLines : list string)
    (st : DiffState) (i : nat) :
  differ existingLines newLines i = true ->
  hunkLines (diff_step existingLines newLines st i)
  = change_lines existingLines newLines i
      (if inHunk st then hunkLines st
       else context_before existingLines (i - 3) i)
  /\ (forall line,
         In line (change_lines existingLines newLines i []) ->
         (line = "-" ++ nth i existingLines ""
          /\ i < length existingLines /\ nth i existingLines "" <> "")
         \/ (line = "+" ++ nth i newLines ""
             /\ i < length newLines /\ nth i newLines "" <> ""))
  /\ (forall hunkLines,
         i < length existingLines -> i < length newLines ->
         nth i newLines "" = "" ->
         change_lines existingLines newLines i hunkLines
         = (hunkLines ++ ["-" +:+ nth i existingLines ""])%list)
  /\ (forall hunkLines,
         i < length existingLines -> i < length newLines ->
         nth i existingLines "" = "" ->
         change_lines existingLines newLines i hunkLines
         = (hunkLines ++ ["+" +:+ nth i newLines ""])%list).
Proof.
  intros Hd. split.
  { rewrite (diff_step_differs _ _ _ _ Hd). reflexivity. }
  unfold differ in Hd. unfold change_lines, line_at in *.
  split; [|split].
  - intros line Hin.
    destruct (i <? length existingLines)%nat eqn:Ho;
      destruct (i <? length newLines)%nat eqn:Hn;
      destruct (String.eqb (nth i existingLines "") "") eqn:Eo;
      destruct (String.eqb (nth i newLines "") "") eqn:En;
      simpl in Hin;
      try apply Nat.ltb_lt in Ho; try apply Nat.ltb_lt in Hn;
      try apply String.eqb_neq in Eo; try apply String.eqb_neq in En;
      repeat (destruct Hin as [<- | Hin]; [tauto|]);
      contradiction.
  - intros hunkLines Ho Hn En.
    apply Nat.ltb_lt in Ho, Hn. rewrite Ho, Hn, En in *.
    destruct (String.eqb (nth i existingLines "") "") eqn:Eo.
    + discriminate.
    + reflexivity.
  - intros hunkLines Ho Hn Eo.
    apply Nat.ltb_lt in Ho, Hn. rewrite Ho, Hn, Eo in *.
    destruct (String.eqb (nth i newLines "") "") eqn:En.
    + apply String.eqb_eq in En. rewrite En in Hd. discriminate.
    + simpl. reflexivity.
Qed.

Lemma empty_lines_unmarked_witness :
  change_lines ["a"; "b"; "c"] ["a"; ""; "c"] 1 [" a"] = [" a"; "-b"].
Proof.
  destruct (empty_lines_unmarked ["a"; "b"; "c"] ["a"; ""; "c"]
              (mkDiffState "" false 0 []) 1 eq_refl)
    as (_ & _ & Hold & _).
  exact (Hold [" a"] ltac:(simpl; lia) ltac:(simpl; lia) eq_refl).
Defined.

(** The line [b] replaced by an empty line: the hunk has a [-] line and
    no [+] line. *)
Example empty_line_example :
  generateUnifiedDiff (Join ["a"; "b"; "c"; ""] nl)
                      (Join ["a"; ""; "c"; ""] nl) "p/x"
  = Join ["diff --git a/p/x b/p/x";
          "index 63fbd42..55ba528 100644";
          "--- a/p/x";
          "+++ b/p/x";
          "@@ -1,4 +1,3 @@";
          " a"; "-b"; " c"; " ";
          ""] nl.
Proof. vm_compute. reflexivity. Qed.

(** * Further properties of the code *)

(** ** The conversion of [GetSecret] and [PutSecret] *)

Section Conversion.

(** Text without separator at the head of a path stays in its first
    element. *)
Lemma Split_head_no_sep (a b : string) (sep : ascii) :
  has_byte sep a = false ->
  Split (a ++ b) sep = (a ++ hd "" (Split b sep)) :: tl (Split b sep).
Proof.
  intros Ha. induction a as [|c a IH].
  - rewrite !append_empty_l. pose proof (Split_not_nil b sep).
    destruct (Split b sep); [contradiction|reflexivity].
  - simpl in Ha. apply orb_false_iff in Ha as [Hc Ha].
    rewrite append_cons, (Split_cons_other _ _ _ Hc), (IH Ha).
    reflexivity.
Qed.

(** X1. The conversion of [GetSecret], which is also that of [PutSecret],
    applied to its own result changes nothing, whatever the path: a data
    path is never converted again. *)
Theorem conversion_idempotent (secretPath : string) :
  GetSecret_dataPath (GetSecret_dataPath secretPath)
  = GetSecret_dataPath secretPath
  /\ PutSecret_dataPath (PutSecret_dataPath secretPath)
     = PutSecret_dataPath secretPath
  /\ GetSecret_dataPath (PutSecret_dataPath secretPath)
     = PutSecret_dataPath secretPath.
Proof.
  repeat split; exact (dataPath_idempotent secretPath).
Qed.

(** X2. On a path of three or more elements whose element 1 is
    ["metadata"], the conversion gives a path with the same elements
    except for element 1, which is ["data"]. *)
Theorem conversion_elements (secretPath engine : string)
    (rest : list string) :
  Split secretPath slash = engine :: "metadata" :: rest ->
  rest <> [] ->
  Split (GetSecret_dataPath secretPath) slash = engine :: "data" :: rest
  /\ Split (PutSecret_dataPath secretPath) slash = engine :: "data" :: rest.
Proof.
  intros Hs Hr.
  change (PutSecret_dataPath secretPath)
    with (GetSecret_dataPath secretPath).
  destruct (dataPath_metadata _ _ _ Hs Hr) as [-> _].
  pose proof (Split_pieces_no_sep secretPath slash) as Hp.
  rewrite Hs in Hp. inversion Hp as [|? ? He Hp']; subst.
  inversion Hp' as [|? ? _ Hrest]; subst.
  assert (Hsplit : Split (engine ++ "/data/" ++ Join rest "/") slash
                   = engine :: "data" :: rest).
  { change (engine ++ "/data/" ++ Join rest "/")
      with (engine ++ String slash
              ("data" ++ String slash (Join rest (String slash "")))).
    rewrite Split_two by (assumption || reflexivity).
    rewrite Split_Join by assumption. reflexivity. }
  split; exact Hsplit.
Qed.

Lemma conversion_elements_witness :
  Split (GetSecret_dataPath "secret/metadata/app/db") slash
  = ["secret"; "data"; "app"; "db"].
Proof.
  apply (conversion_elements "secret/metadata/app/db" "secret"
           ["app"; "db"]); [reflexivity|discriminate].
Defined.

(** X3. The walker's test [currentPath[:11] == "kv/metadata"] looks at
    bytes, not at elements: on every current path that starts with these
    eleven bytes the data path requested for a key is ["kv/data"], the
    rest of the current path and the key. Where the rest does not start
    with a separator (a current path such as ["kv/metadata-old"]), the
    conversion of [GetSecret] itself would leave the key's path as it
    is. *)
Theorem kv_prefix_rewrite (tail key : string) :
  leaf_dataPath ("kv/metadata" ++ tail) key
  = "kv/data" ++ tail ++ "/" ++ key
  /\ (forall c t, tail = String c t -> c <> slash ->
        GetSecret_dataPath (("kv/metadata" ++ tail) ++ "/" ++ key)
        = ("kv/metadata" ++ tail) ++ "/" ++ key).
Proof.
  split.
  - unfold leaf_dataPath, leaf_secretPath.
    assert (Hlen : (11 <=? String.length ("kv/metadata" ++ tail))%nat
                   = true).
    { apply Nat.leb_le. rewrite length_append. simpl. lia. }
    rewrite Hlen.
    change 11%nat with (String.length "kv/metadata").
    rewrite slice_to_append, slice_from_append.
    change (String.eqb "kv/metadata" "kv/metadata") with true.
    cbv [andb]. apply dataPath_other.
    change ("kv/data" ++ tail ++ "/" ++ key)
      with ("kv" ++ String slash ("d" ++ ("ata" ++ tail ++ "/" ++ key))).
    rewrite Split_append.
    rewrite (Split_head_no_sep "d" _ slash eq_refl).
    simpl. discriminate.
  - intros c t -> Hc. apply dataPath_other.
    assert (Hpath : ("kv/metadata" ++ String c t) ++ "/" ++ key
                    = "kv" ++ String slash
                        (("metadata" ++ String c "")
                         ++ (t ++ "/" ++ key))).
    { rewrite !append_assoc. reflexivity. }
    rewrite Hpath, Split_append.
    rewrite (Split_head_no_sep ("metadata" ++ String c "") _ slash).
    + simpl. intros Heq. cbv [String.append] in Heq. discriminate.
    + simpl. apply Ascii.eqb_neq in Hc. rewrite Hc. reflexivity.
Qed.

Lemma kv_prefix_rewrite_witness :
  GetSecret_dataPath (("kv/metadata" ++ "-old/app") ++ "/" ++ "db")
  = ("kv/metadata" ++ "-old/app") ++ "/" ++ "db".
Proof.
  destruct (kv_prefix_rewrite "-old/app" "db") as [_ H].
  apply (H "-"%char "old/app"); [reflexivity|discriminate].
Defined.

End Conversion.

(** ** More on the short hash *)

Section ShortHashMore.

Local Open Scope Z_scope.

(** X4. The short hash has seven characters for every text, so the
    [index] line of a diff always has the same width. *)
Theorem generateShortHash_length (content : string) :
  String.length (generateShortHash content) = 7%nat.
Proof.
  destruct (Z.eq_dec (rolling_hash content) (- 2 ^ 63)) as [Hmin | Hother].
  - unfold generateShortHash. rewrite Hmin. vm_compute. reflexivity.
  - apply generateShortHash_seven_digits. exact Hother.
Qed.

(** X5. Unless the accumulated hash is the least 64-bit integer, the short
    hash is made of seven lower-case hexadecimal digits. *)
Theorem generateShortHash_hexadecimal (content : string) :
  rolling_hash content <> - 2 ^ 63 ->
  String.length (generateShortHash content) = 7%nat
  /\ Fmt.all_hex (generateShortHash content) = true.
Proof. apply generateShortHash_seven_digits. Qed.

Lemma generateShortHash_hexadecimal_witness :
  String.length (generateShortHash ("user: admin" ++ nl)) = 7%nat
  /\ Fmt.all_hex (generateShortHash ("user: admin" ++ nl)) = true.
Proof.
  apply (generateShortHash_hexadecimal ("user: admin" ++ nl)).
  vm_compute. discriminate.
Defined.

End ShortHashMore.

(** ** The order of the hunks *)

Section HunkOrder.

Variables existingLines newLines : list string.
Variable maxLines : nat.
Variable header : string.

Local Abbreviation differs := (differ existingLines newLines).
Local Abbreviation lines_of := (index_lines existingLines newLines).
Local Abbreviation hunk := (hunk_lines existingLines newLines).
Local Abbreviation ordered :=
  (diff_invariant_ordered existingLines newLines maxLines header).

Lemma ordered_ranges_app (ranges : list (nat * nat)) (range : nat * nat) :
  ordered_ranges ranges ->
  Forall (fun earlier => snd earlier <= fst range) ranges ->
  ordered_ranges (ranges ++ [range]).
Proof.
  induction ranges as [|r ranges IH]; intros Ho Hb.
  - simpl. split; [constructor|exact I].
  - destruct Ho as [Hlater Ho]. inversion Hb as [|? ? Hr Hb']; subst.
    simpl. split.
    + apply Forall_app. split; [exact Hlater|].
      constructor; [exact Hr|constructor].
    + apply IH; assumption.
Qed.

Lemma Forall_le_trans (ranges : list (nat * nat)) (a b : nat) :
  a <= b ->
  Forall (fun range : nat * nat => snd range <= a) ranges ->
  Forall (fun range : nat * nat => snd range <= b) ranges.
Proof.
  intros Hab Hall. eapply List.Forall_impl; [|exact Hall].
  intros range Hr. simpl in *. lia.
Qed.

Lemma ordered_step (st : DiffState) (i : nat) :
  i < maxLines -> ordered i st ->
  ordered (S i) (diff_step existingLines newLines st i).
Proof.
  intros Hi (ranges & Hdiff & Hclosed & Hord & Hst).
  destruct (differs i) eqn:Hd.
  - rewrite (diff_step_differs _ _ _ _ Hd). exists ranges. simpl.
    split; [exact Hdiff|]. split; [exact Hclosed|]. split; [exact Hord|].
    destruct (inHunk st).
    + destruct Hst as (first & last & Hstart & Hlines & Hopen & Hcov & Hb).
      destruct Hopen as (Hr & Hf & Hl & Hsame & Hnear & Hbefore & Hgap).
      exists first, i. split; [exact Hstart|]. split.
      { rewrite change_lines_app, Hlines, hunk_snoc by lia.
        unfold index_lines. rewrite Hd. reflexivity. }
      split.
      { repeat split; try assumption; try lia.
        intros j Hj1 Hj2.
        destruct (Nat.lt_ge_cases (j + 2) last) as [Hlt | Hge].
        - apply Hgap; assumption.
        - assert (Hc : last = j \/ last = j + 1 \/ last = j + 2) by lia.
          destruct Hc as [<- | [-> | ->]]; rewrite Hl;
            rewrite ?orb_true_r; reflexivity. }
      split; [|exact Hb].
      intros k Hk Hdk.
      destruct (Nat.eq_dec k i) as [-> | Hne]; [left; lia|].
      apply Hcov; [lia|exact Hdk].
    + destruct Hst as (Hbefore & Hcov & Hb).
      exists i, i. split; [reflexivity|]. split.
      { rewrite change_lines_app, hunk_start.
        unfold index_lines. rewrite Hd. reflexivity. }
      split.
      { repeat split; try assumption; try lia. }
      split; [|exact Hb].
      intros k Hk Hdk.
      destruct (Nat.eq_dec k i) as [-> | Hne]; [left; lia|].
      right. apply Hcov; [lia|exact Hdk].
  - rewrite (diff_step_same _ _ _ _ Hd).
    destruct (inHunk st) eqn:Hin.
    + destruct Hst as (first & last & Hstart & Hlines & Hopen & Hcov & Hb).
      destruct Hopen as (Hr & Hf & Hl & Hsame & Hnear & Hbefore & Hgap).
      assert (Hsame' : forall j, last < j < S i -> differs j = false).
      { intros j Hj. destruct (Nat.eq_dec j i) as [-> | Hne];
          [exact Hd|apply Hsame; lia]. }
      assert (Hnew : (hunkLines st ++ lines_of i)%list = hunk first (S i)).
      { rewrite Hlines, hunk_snoc by lia. reflexivity. }
      cbv zeta. rewrite Hnew.
      rewrite (contextCount_hunk _ _ first last (S i))
        by (assumption || lia).
      destruct (3 <=? S i - S last)%nat eqn:Hc.
      * apply Nat.leb_le in Hc.
        exists (ranges ++ [(first, S i)])%list. simpl.
        split.
        { rewrite writeHunk_render, render_hunks_app, Hdiff, Hstart.
          rewrite firstn_all2 by lia.
          rewrite append_assoc. reflexivity. }
        split.
        { apply Forall_app. split; [exact Hclosed|].
          constructor; [|constructor]. simpl.
          split; [exact Hf|]. split; [exact Hbefore|]. split; [lia|].
          exists last. repeat split; try assumption; try lia. }
        split; [apply ordered_ranges_app; assumption|].
        split.
        { intros j Hj. apply Hsame'. lia. }
        split.
        { intros k Hk Hdk. apply covered_app.
          destruct (Nat.eq_dec k i) as [-> | Hne];
            [rewrite Hd in Hdk; discriminate|].
          destruct (Hcov k ltac:(lia) Hdk) as [Hfk | Hck];
            [right; simpl; lia|left; exact Hck]. }
        apply Forall_app. split.
        { apply (Forall_le_trans _ first); [lia|exact Hb]. }
        constructor; [simpl; lia|constructor].
      * apply Nat.leb_gt in Hc.
        exists ranges. simpl. split; [exact Hdiff|].
        split; [exact Hclosed|]. split; [exact Hord|].
        exists first, last. split; [exact Hstart|]. split; [reflexivity|].
        split.
        { repeat split; try assumption; try lia. }
        split; [|exact Hb].
        intros k Hk Hdk.
        destruct (Nat.eq_dec k i) as [-> | Hne];
          [rewrite Hd in Hdk; discriminate|].
        apply Hcov; [lia|exact Hdk].
    + exists ranges. rewrite Hin. split; [exact Hdiff|].
      split; [exact Hclosed|]. split; [exact Hord|].
      destruct Hst as (Hbefore & Hcov & Hb). split; [|split].
      * intros j Hj. destruct (Nat.eq_dec j i) as [-> | Hne];
          [exact Hd|apply Hbefore; lia].
      * intros k Hk Hdk.
        destruct (Nat.eq_dec k i) as [-> | Hne];
          [rewrite Hd in Hdk; discriminate|].
        apply Hcov; [lia|exact Hdk].
      * apply (Forall_le_trans _ i); [lia|exact Hb].
Qed.

Lemma ordered_start : ordered 0 (mkDiffState header false 0 []).
Proof.
  exists []. simpl. rewrite append_empty_r.
  split; [reflexivity|]. split; [constructor|]. split; [exact I|].
  split; [intros; lia|]. split; [intros; lia|constructor].
Qed.

Lemma ordered_loop (count : nat) :
  forall (from : nat) (st : DiffState),
    from + count <= maxLines -> ordered from st ->
    ordered (from + count)
            (fold_left (diff_step existingLines newLines)
                       (seq from count) st).
Proof.
  induction count as [|count IH]; intros from st Hle Hinv.
  - rewrite Nat.add_0_r. exact Hinv.
  - simpl. replace (from + S count) with (S from + count) by lia.
    apply IH; [lia|]. apply ordered_step; [lia|exact Hinv].
Qed.

Lemma ordered_end (st : DiffState) :
  ordered maxLines st ->
  exists ranges,
    (if inHunk st
     then writeHunk (diff st) (hunkStart st) (Z.of_nat maxLines)
                    (length existingLines) (length newLines) (hunkLines st)
     else diff st)
    = header ++ render_hunks existingLines newLines ranges
    /\ Forall (fun range => hunk_range existingLines newLines maxLines
                                      (fst range) (snd range)) ranges
    /\ ordered_ranges ranges
    /\ (forall k, k < maxLines -> differs k = true -> covered ranges k).
Proof.
  intros (ranges & Hdiff & Hclosed & Hord & Hst). destruct (inHunk st).
  - destruct Hst as (first & last & Hstart & Hlines & Hopen & Hcov & Hb).
    destruct Hopen as (Hr & Hf & Hl & Hsame & Hnear & Hbefore & Hgap).
    exists (ranges ++ [(first, maxLines)])%list. split.
    { rewrite writeHunk_render, render_hunks_app, Hdiff, Hstart, Hlines.
      rewrite append_assoc. reflexivity. }
    split.
    { apply Forall_app. split; [exact Hclosed|].
      constructor; [|constructor]. simpl.
      split; [exact Hf|]. split; [exact Hbefore|]. split; [lia|].
      exists last. repeat split; try assumption; try lia. }
    split; [apply ordered_ranges_app; assumption|].
    intros k Hk Hdk. apply covered_app.
    destruct (Hcov k Hk Hdk) as [Hfk | Hck];
      [right; simpl; lia|left; exact Hck].
  - exists ranges. destruct Hst as (_ & Hcov & _). auto.
Qed.

End HunkOrder.

(** The output of [generateUnifiedDiff] on texts that differ: the header
    and the hunks of ordered index ranges. *)
Lemma diff_output_ordered (existing new filename : string) :
  existing <> new ->
  exists ranges,
    generateUnifiedDiff existing new filename
    = diff_header existing new filename
      ++ render_hunks (Split existing newline) (Split new newline) ranges
    /\ Forall
         (fun range =>
            hunk_range (Split existing newline) (Split new newline)
              (Nat.max (length (Split existing newline))
                       (length (Split new newline)))
              (fst range) (snd range))
         ranges
    /\ ordered_ranges ranges
    /\ (forall k,
           k < Nat.max (length (Split existing newline))
                       (length (Split new newline)) ->
           differ (Split existing newline) (Split new newline) k = true ->
           covered ranges k).
Proof.
  intros Hne. unfold generateUnifiedDiff, diff_loop.
  apply String.eqb_neq in Hne. rewrite Hne.
  set (existingLines := Split existing newline).
  set (newLines := Split new newline).
  assert (Hmax : (if (length existingLines <? length newLines)%nat
                  then length newLines else length existingLines)
                 = Nat.max (length existingLines) (length newLines)).
  { destruct (length existingLines <? length newLines)%nat eqn:Hlt.
    - apply Nat.ltb_lt in Hlt. lia.
    - apply Nat.ltb_ge in Hlt. lia. }
  rewrite Hmax. set (maxLines := Nat.max _ _).
  exact (ordered_end _ _ _ _ _
           (ordered_loop existingLines newLines maxLines
              (diff_header existing new filename) maxLines 0 _
              (Nat.le_refl _)
              (ordered_start existingLines newLines maxLines _))).
Qed.

(** ** What the diff of two texts is *)

Section DiffMore.

Lemma diff_loop_unchanged (existingLines newLines : list string)
    (indices : list nat) (st : DiffState) :
  inHunk st = false ->
  (forall k, differ existingLines newLines k = false) ->
  fold_left (diff_step existingLines newLines) indices st = st.
Proof.
  intros Hin Hsame. induction indices as [|i indices IH];
    [reflexivity|].
  simpl. rewrite (diff_step_same _ _ _ _ (Hsame i)), Hin. exact IH.
Qed.

Lemma diff_no_difference (existing new filename : string) :
  existing <> new ->
  (forall k, differ (Split existing newline) (Split new newline) k
             = false) ->
  generateUnifiedDiff existing new filename
  = diff_header existing new filename.
Proof.
  intros Hne Hsame. unfold generateUnifiedDiff, diff_loop.
  apply String.eqb_neq in Hne. rewrite Hne. cbv zeta.
  rewrite diff_loop_unchanged by (reflexivity || exact Hsame).
  reflexivity.
Qed.

Lemma Split_newlines (count : nat) :
  Split (newlines count) newline = repeat "" (S count).
Proof.
  induction count as [|count IH]; [reflexivity|].
  simpl newlines. rewrite Split_cons_sep, IH. reflexivity.
Qed.

Lemma Split_trailing_newlines (text : string) (count : nat) :
  Split (text ++ newlines (S count)) newline
  = (Split text newline ++ repeat "" (S count))%list.
Proof.
  simpl newlines. rewrite Split_append, Split_newlines. reflexivity.
Qed.

Lemma line_at_padded (lines : list string) (count i : nat) :
  line_at (lines ++ repeat "" count) i = line_at lines i.
Proof.
  unfold line_at. rewrite length_app, repeat_length.
  destruct (i <? length lines)%nat eqn:Hi.
  - apply Nat.ltb_lt in Hi.
    replace (i <? length lines + count)%nat with true
      by (symmetry; apply Nat.ltb_lt; lia).
    apply app_nth1. exact Hi.
  - apply Nat.ltb_ge in Hi.
    destruct (i <? length lines + count)%nat; [|reflexivity].
    rewrite app_nth2 by exact Hi.
    apply nth_repeat.
Qed.

Lemma trailing_newlines_differ (text : string) (count : nat) :
  text ++ newlines (S count) <> text.
Proof.
  intros Heq. apply (f_equal String.length) in Heq.
  rewrite length_append in Heq. simpl in Heq. lia.
Qed.

(** X6. [generateUnifiedDiff] returns the empty text exactly for equal
    texts: whenever the two texts differ in any byte its result is not
    empty, so [showDryRunDiff] reports "no changes" only for an unchanged
    encoding. *)
Theorem diff_empty_iff_equal (existing new filename : string) :
  generateUnifiedDiff existing new filename = "" <-> existing = new.
Proof.
  split.
  - intros Hempty.
    destruct (String.eqb existing new) eqn:Heq;
      [apply String.eqb_eq; exact Heq|].
    apply String.eqb_neq in Heq.
    destruct (diff_output_ordered existing new filename Heq)
      as (ranges & Hout & _).
    rewrite Hout in Hempty. unfold diff_header in Hempty.
    rewrite !append_assoc, append_cons in Hempty. discriminate.
  - intros ->. apply generateUnifiedDiff_same.
Qed.

(** X7. The hunks of a diff follow the lines: the output is the header
    and the hunks of index ranges that are not empty, stay within the
    longer text, follow one another without overlap, and together hold
    every index at which the texts differ. *)
Theorem diff_hunks_ordered (existing new filename : string) :
  existing <> new ->
  exists ranges,
    generateUnifiedDiff existing new filename
    = diff_header existing new filename
      ++ render_hunks (Split existing newline) (Split new newline) ranges
    /\ Forall
         (fun range =>
            fst range < snd range
            /\ snd range <= Nat.max (length (Split existing newline))
                                    (length (Split new newline)))
         ranges
    /\ ordered_ranges ranges
    /\ (forall k,
           differ (Split existing newline) (Split new newline) k = true ->
           covered ranges k).
Proof.
  intros Hne.
  destruct (diff_output_ordered existing new filename Hne)
    as (ranges & Hout & Hranges & Hord & Hcov).
  exists ranges. split; [exact Hout|]. split; [|split; [exact Hord|]].
  - eapply List.Forall_impl; [|exact Hranges].
    intros range (_ & _ & Hstop & last & Hl & _). lia.
  - intros k Hk. apply Hcov; [|exact Hk].
    destruct (Nat.lt_ge_cases k
                (Nat.max (length (Split existing newline))
                         (length (Split new newline)))) as [Hlt | Hge];
      [exact Hlt|].
    unfold differ, line_at in Hk.
    replace (k <? length (Split existing newline))%nat with false in Hk
      by (symmetry; apply Nat.ltb_ge; lia).
    replace (k <? length (Split new newline))%nat with false in Hk
      by (symmetry; apply Nat.ltb_ge; lia).
    discriminate.
Qed.

Lemma diff_hunks_ordered_witness :
  exists ranges,
    generateUnifiedDiff ("a" ++ nl ++ "b") ("a" ++ nl ++ "c") "f"
    = diff_header ("a" ++ nl ++ "b") ("a" ++ nl ++ "c") "f"
      ++ render_hunks ["a"; "b"] ["a"; "c"] ranges
    /\ ordered_ranges ranges.
Proof.
  destruct (diff_hunks_ordered ("a" ++ nl ++ "b") ("a" ++ nl ++ "c") "f")
    as (ranges & Hout & _ & Hord & _); [discriminate|].
  exists ranges. split; [exact Hout|exact Hord].
Defined.

(** X8. Texts that differ only in newlines at the end have a diff of the
    header alone: the lines beyond the shorter text read as empty, so no
    index differs and no hunk is written, in either direction, although
    the result is not the empty text of equal inputs. *)
Theorem trailing_newlines_header_only (text filename : string)
    (count : nat) :
  generateUnifiedDiff text (text ++ newlines (S count)) filename
  = diff_header text (text ++ newlines (S count)) filename
  /\ generateUnifiedDiff (text ++ newlines (S count)) text filename
     = diff_header (text ++ newlines (S count)) text filename.
Proof.
  split; apply diff_no_difference.
  - intros Heq. symmetry in Heq. exact (trailing_newlines_differ _ _ Heq).
  - intros k. unfold differ.
    rewrite Split_trailing_newlines, line_at_padded, String.eqb_refl.
    reflexivity.
  - apply trailing_newlines_differ.
  - intros k. unfold differ.
    rewrite Split_trailing_newlines, line_at_padded, String.eqb_refl.
    reflexivity.
Qed.

End DiffMore.

(** ** What a pull records and writes *)

Section WrittenFiles.

Import Filepath.

Lemma extension_kept (elem : string) :
  String.eqb (elem ++ ".yaml") "" = false
  /\ String.eqb (elem ++ ".yaml") "." = false
  /\ String.eqb (elem ++ ".yaml") ".." = false.
Proof.
  assert (Hlen : (5 <= String.length (elem ++ ".yaml"))%nat).
  { rewrite length_append. simpl. lia. }
  repeat split; apply String.eqb_neq; intros Heq; rewrite Heq in Hlen;
    simpl in Hlen; lia.
Qed.

Lemma Join_snoc (elems : list string) (elem sep : string) :
  exists front, Join (elems ++ [elem]) sep = front ++ elem.
Proof.
  induction elems as [|e elems [front IH]].
  - exists "". reflexivity.
  - exists (e ++ sep ++ front).
    change ((e :: elems) ++ [elem])%list with (e :: (elems ++ [elem]))%list.
    rewrite Join_cons by (destruct elems; discriminate).
    rewrite IH, !append_assoc. reflexivity.
Qed.

Lemma Clean_keeps_extension (path : string) :
  HasSuffix (Clean (path ++ ".yaml")) ".yaml" = true.
Proof.
  unfold Clean. generalize (rooted (path ++ ".yaml")). intros abs.
  change Separator with slash.
  rewrite Split_append_no_sep by reflexivity.
  unfold clean_elems. rewrite fold_left_app. simpl fold_left.
  set (stack := fold_left (clean_step abs) _ []).
  set (elem := List.last (Split path slash) "").
  destruct (extension_kept elem) as (He & Hd & Hdd).
  unfold clean_step at 1.
  change (elem +:+ ".yaml") with (elem ++ ".yaml").
  rewrite He, Hd, Hdd. simpl rev.
  destruct (Join_snoc (rev stack) (elem ++ ".yaml") "/") as [front Hj].
  assert (Hout : exists front',
             render abs (rev stack ++ [elem ++ ".yaml"])
             = front' ++ elem ++ ".yaml").
  { unfold render. destruct abs.
    - exists (String slash front). rewrite Hj. reflexivity.
    - destruct (rev stack ++ [elem +:+ ".yaml"])%list eqn:Hl.
      + destruct (rev stack); discriminate.
      + exists front. exact Hj. }
  destruct Hout as [front' ->].
  rewrite <- append_assoc. apply HasSuffix_append.
Qed.

Lemma Join2_keeps_extension (dir name : string) :
  HasSuffix (Join2 dir (name ++ ".yaml")) ".yaml" = true.
Proof.
  unfold Join2.
  destruct (extension_kept name) as (He & _). rewrite He.
  destruct (String.eqb dir "").
  - apply Clean_keeps_extension.
  - rewrite <- !append_assoc. apply Clean_keeps_extension.
Qed.

(** X9. Every path [writeSecretToFile] writes to ends in [.yaml],
    whatever the secret, the metadata path and the output directory are:
    the walk of a later push takes up each file a pull has written. *)
Theorem written_file_has_extension
    (secretPath metadataPath outputDir filePath : string) :
  writeSecretToFile_filePath secretPath metadataPath outputDir
  = Ok filePath ->
  HasSuffix filePath ".yaml" = true.
Proof.
  unfold writeSecretToFile_filePath.
  destruct (String.eqb _ ""); [discriminate|].
  intros Hok. injection Hok as <-. apply Join2_keeps_extension.
Qed.

Lemma written_file_has_extension_witness :
  HasSuffix "out/app/db.yaml" ".yaml" = true.
Proof.
  apply (written_file_has_extension "kv/metadata/app/db" "kv/metadata/app"
                                    "out").
  vm_compute. reflexivity.
Defined.

Lemma nested_snoc (folders : list string) (folder : string) :
  nested (folders ++ [folder])
  = nested folders ++ "/" ++ folder ++ "/metadata".
Proof.
  induction folders as [|f folders IH].
  - simpl. rewrite !append_empty_r. reflexivity.
  - change (nested ((f :: folders) ++ [folder]))
      with ("/" ++ f ++ "/metadata" ++ nested (folders ++ [folder])).
    rewrite IH.
    change (nested (f :: folders))
      with ("/" ++ f ++ "/metadata" ++ nested folders).
    rewrite !append_assoc. reflexivity.
Qed.

Lemma nested_key (folders : list string) (key : string) :
  key <> "" ->
  exists tail, tail <> "" /\ nested folders ++ "/" ++ key = "/" ++ tail.
Proof.
  intros Hk. destruct folders as [|f folders].
  - exists key. split; [exact Hk|reflexivity].
  - exists (f ++ "/metadata" ++ nested folders ++ "/" ++ key). split.
    + intros Heq. apply (f_equal String.length) in Heq.
      rewrite !length_append in Heq. simpl in Heq. lia.
    + change (nested (f :: folders))
        with ("/" ++ f ++ "/metadata" ++ nested folders).
      rewrite !append_assoc. reflexivity.
Qed.

Lemma file_path_below (metadataPath tail outputDir : string) :
  tail <> "" ->
  exists filePath,
    writeSecretToFile_filePath (metadataPath ++ "/" ++ tail) metadataPath
                               outputDir
    = Ok filePath.
Proof.
  intros Ht. unfold writeSecretToFile_filePath.
  rewrite TrimPrefix_append, TrimPrefix_append.
  apply String.eqb_neq in Ht. rewrite Ht. eexists. reflexivity.
Qed.

End WrittenFiles.

Section PullMore.

Context {Payload : Type} (w : World Payload).

(** What the walk keeps: a property of the recorded secrets that holds
    for every payload fetched for a key listed at a path the walk visits,
    and a property of the events that holds for the texts it prints. *)
Lemma helper_preserves_listed (visited : string -> Prop)
    (recorded : string -> Payload -> Prop)
    (emitted : Event Payload -> Prop) :
  (forall path keys key,
      visited path -> ListSecrets w path = Ok keys -> In key keys ->
      key <> "" -> is_folder key = true ->
      visited (folderPath path key)) ->
  (forall path keys key secretData,
      visited path -> ListSecrets w path = Ok keys -> In key keys ->
      key <> "" -> is_folder key = false ->
      httpGet w (leaf_dataPath path key) = Ok secretData ->
      recorded (path ++ "/" ++ key) secretData) ->
  (forall text, emitted (Printf text)) ->
  forall (fuel : nat) (path : string) (st : @PullState Payload),
    visited path ->
    (forall secretPath secretData,
        secrets st !! secretPath = Some secretData ->
        recorded secretPath secretData) ->
    Forall emitted (out st) ->
    let st' := snd (pullSecretsRecursivelyHelper w fuel path st) in
    (forall secretPath secretData,
        secrets st' !! secretPath = Some secretData ->
        recorded secretPath secretData)
    /\ Forall emitted (out st').
Proof.
  intros Hfolder Hleaf Hprint.
  induction fuel as [|fuel IH]; intros path st Hv Hrec Hout;
    [split; assumption|].
  simpl. destruct (ListSecrets w path) as [keys|err] eqn:Hl;
    [|split; assumption].
  cut (forall rest, incl rest keys ->
       forall st : @PullState Payload,
         (forall secretPath secretData,
             secrets st !! secretPath = Some secretData ->
             recorded secretPath secretData) ->
         Forall emitted (out st) ->
         (forall secretPath secretData,
             secrets (snd (pull_keys w (pullSecretsRecursivelyHelper w fuel)
                                     path rest st)) !! secretPath
             = Some secretData ->
             recorded secretPath secretData)
         /\ Forall emitted
              (out (snd (pull_keys w (pullSecretsRecursivelyHelper w fuel)
                                   path rest st)))).
  { intros Hgen. exact (Hgen keys (incl_refl keys) st Hrec Hout). }
  clear st Hrec Hout.
  induction rest as [|key rest IHk]; intros Hincl st Hrec Hout;
    [split; assumption|].
  assert (Hin : In key keys) by (apply Hincl; left; reflexivity).
  assert (Hincl' : incl rest keys).
  { intros k Hk. apply Hincl. right. exact Hk. }
  simpl. destruct (String.eqb key "") eqn:Hk; [split; assumption|].
  apply String.eqb_neq in Hk.
  destruct (is_folder key) eqn:Hf.
  - pose proof (IH (folderPath path key) st
                   (Hfolder _ _ _ Hv Hl Hin Hk Hf) Hrec Hout) as Hinner.
    simpl in Hinner.
    destruct (pullSecretsRecursivelyHelper w fuel (folderPath path key) st)
      as [[[err|]| |] st1]; try exact Hinner.
    destruct Hinner as [Hrec1 Hout1]. exact (IHk Hincl' st1 Hrec1 Hout1).
  - unfold GetSecret. fold (leaf_dataPath path key).
    destruct (httpGet w (leaf_dataPath path key)) as [secretData|err]
      eqn:Hget.
    + apply (IHk Hincl').
      * intros secretPath data. simpl. intros Hlook.
        apply lookup_insert_Some in Hlook as [[<- <-] | [_ Hlook]];
          [exact (Hleaf _ _ _ _ Hv Hl Hin Hk Hf Hget)
          |exact (Hrec _ _ Hlook)].
      * simpl. apply Forall_app. split; [exact Hout|].
        constructor; [apply Hprint|constructor].
    + apply (IHk Hincl'); [exact Hrec|].
      simpl. apply Forall_app. split.
      * apply Forall_app. split; [exact Hout|].
        constructor; [apply Hprint|constructor].
      * constructor; [apply Hprint|constructor].
Qed.

Lemma helper_preserves (visited : string -> Prop)
    (recorded : string -> Payload -> Prop)
    (emitted : Event Payload -> Prop) :
  (forall path key,
      visited path -> key <> "" -> is_folder key = true ->
      visited (folderPath path key)) ->
  (forall path key secretData,
      visited path -> key <> "" -> is_folder key = false ->
      httpGet w (leaf_dataPath path key) = Ok secretData ->
      recorded (path ++ "/" ++ key) secretData) ->
  (forall text, emitted (Printf text)) ->
  forall (fuel : nat) (path : string) (st : @PullState Payload),
    visited path ->
    (forall secretPath secretData,
        secrets st !! secretPath = Some secretData ->
        recorded secretPath secretData) ->
    Forall emitted (out st) ->
    let st' := snd (pullSecretsRecursivelyHelper w fuel path st) in
    (forall secretPath secretData,
        secrets st' !! secretPath = Some secretData ->
        recorded secretPath secretData)
    /\ Forall emitted (out st').
Proof.
  intros Hfolder Hleaf Hprint.
  apply helper_preserves_listed; [| |exact Hprint].
  - intros path keys key Hv _ _. apply Hfolder. exact Hv.
  - intros path keys key secretData Hv _ _. apply Hleaf. exact Hv.
Qed.

(** X10. Whatever [PullSecretsRecursively] records, it has listed and
    fetched: the recorded path is a current path, a separator and a key,
    where the current path is one the walker lists from the base path
    (the base path, or the folder path of a folder key listed at such a
    path), [ListSecrets] answered there with keys among which the key is,
    the key is not empty and no folder, and the recorded payload is the
    one the store answered at the data path of that key. *)
Theorem pulled_secret_was_fetched (fuel : nat)
    (basePath secretPath : string) (secretData : Payload) :
  secrets (snd (PullSecretsRecursively w fuel basePath)) !! secretPath
  = Some secretData ->
  exists currentPath keys key,
    reached w basePath currentPath
    /\ ListSecrets w currentPath = Ok keys
    /\ In key keys
    /\ secretPath = currentPath ++ "/" ++ key
    /\ key <> "" /\ is_folder key = false
    /\ httpGet w (leaf_dataPath currentPath key) = Ok secretData.
Proof.
  unfold PullSecretsRecursively. intros Hlook.
  refine (proj1 (helper_preserves_listed (reached w basePath)
                   (fun secretPath secretData =>
                      exists currentPath keys key,
                        reached w basePath currentPath
                        /\ ListSecrets w currentPath = Ok keys
                        /\ In key keys
                        /\ secretPath = currentPath ++ "/" ++ key
                        /\ key <> "" /\ is_folder key = false
                        /\ httpGet w (leaf_dataPath currentPath key)
                           = Ok secretData)
                   (fun _ => True) _ _ _ fuel basePath (mkPullState ∅ [])
                   _ _ _) secretPath secretData Hlook).
  - intros path keys key Hv Hl Hin Hk Hf.
    exact (reached_folder w basePath path keys key Hv Hl Hin Hk Hf).
  - intros path keys key data Hv Hl Hin Hk Hf Hget.
    exists path, keys, key. repeat split; assumption.
  - intros. exact I.
  - apply reached_base.
  - intros p d Hl. simpl in Hl. rewrite lookup_empty in Hl. discriminate.
  - constructor.
Qed.

(** X11. The recorded path of a pulled secret lies below the base path:
    it is the base path, for every folder on the way the folder's name
    and [metadata], and the key. So [writeSecretToFile] finds a file name
    for every secret [PullSecretsToFiles] hands it (its error for an
    empty name cannot occur there), and the file's name ends in
    [.yaml]. *)
Theorem pulled_secret_has_file (fuel : nat)
    (basePath outputDir secretPath : string) (secretData : Payload) :
  secrets (snd (PullSecretsRecursively w fuel basePath)) !! secretPath
  = Some secretData ->
  (exists folders key,
      key <> "" /\ secretPath = basePath ++ nested folders ++ "/" ++ key)
  /\ exists filePath,
      writeSecretToFile_filePath secretPath basePath outputDir
      = Ok filePath
      /\ HasSuffix filePath ".yaml" = true.
Proof.
  unfold PullSecretsRecursively. intros Hlook.
  assert (Hform : exists folders key,
             key <> ""
             /\ secretPath = basePath ++ nested folders ++ "/" ++ key).
  { refine (proj1 (helper_preserves
                     (fun path => exists folders,
                          path = basePath ++ nested folders)
                     (fun secretPath _ =>
                        exists folders key,
                          key <> ""
                          /\ secretPath
                             = basePath ++ nested folders ++ "/" ++ key)
                     (fun _ => True) _ _ _ fuel basePath (mkPullState ∅ [])
                     _ _ _) secretPath secretData Hlook).
    - intros path key [folders ->] _ _.
      exists (folders ++ [slice_to key (String.length key - 1)])%list.
      unfold folderPath. rewrite nested_snoc, !append_assoc. reflexivity.
    - intros path key _ [folders ->] Hk _ _.
      exists folders, key. split; [exact Hk|].
      rewrite !append_assoc. reflexivity.
    - intros. exact I.
    - exists []. simpl. rewrite append_empty_r. reflexivity.
    - intros p d Hl. simpl in Hl. rewrite lookup_empty in Hl. discriminate.
    - constructor. }
  split; [exact Hform|].
  destruct Hform as (folders & key & Hk & ->).
  destruct (nested_key folders key Hk) as (tail & Ht & ->).
  destruct (file_path_below basePath tail outputDir Ht) as [filePath Hfile].
  exists filePath. split; [exact Hfile|].
  unfold writeSecretToFile_filePath in Hfile.
  destruct (String.eqb _ ""); [discriminate|].
  injection Hfile as <-. apply Join2_keeps_extension.
Qed.

Lemma write_secrets_events (emitted : Event Payload -> Prop)
    (entries : list (string * Payload)) (basePath outputDir : string) :
  (forall text, emitted (Printf text)) ->
  (forall dir, emitted (DirCreated dir)) ->
  (forall filePath yamlData, emitted (FileWritten filePath yamlData)) ->
  Forall emitted (write_secrets w entries basePath outputDir).
Proof.
  intros Hprint Hdir Hfile.
  induction entries as [|[secretPath secretData] entries IH];
    [constructor|].
  simpl. unfold writeSecretToFile.
  destruct (writeSecretToFile_filePath secretPath basePath outputDir)
    as [filePath|err]; simpl.
  - destruct (MkdirAll w (Filepath.Dir filePath)); simpl.
    + constructor; [apply Hprint|exact IH].
    + destruct (yamlMarshal w secretData) as [yamlData|err]; simpl.
      * destruct (WriteFile w filePath yamlData); simpl;
          repeat (constructor; [first [apply Hprint|apply Hdir|apply Hfile]|]);
          exact IH.
      * repeat (constructor; [first [apply Hprint|apply Hdir]|]). exact IH.
  - constructor; [apply Hprint|exact IH].
Qed.

(** X12. A pull only reads the store: among the events of
    [PullSecretsToFiles] there is no request that changes the store and
    no diff, whatever the store and the file system answer and however
    the call ends; and as long as the walk is under way, before the first
    file is written, it only prints. *)
Theorem pull_reads_only (fuel : nat) (basePath outputDir : string) :
  Forall (fun event => is_put_request event = false
                       /\ is_diff_event event = false)
         (snd (PullSecretsToFiles w fuel basePath outputDir))
  /\ Forall (fun event => is_file_event event = false)
            (out (snd (PullSecretsRecursively w fuel basePath))).
Proof.
  assert (Hwalk : forall emitted : Event Payload -> Prop,
             (forall text, emitted (Printf text)) ->
             Forall emitted
                    (out (snd (PullSecretsRecursively w fuel basePath)))).
  { intros emitted Hprint. unfold PullSecretsRecursively.
    refine (proj2 (helper_preserves (fun _ => True) (fun _ _ => True)
                     emitted _ _ Hprint fuel basePath (mkPullState ∅ [])
                     I _ _)); auto. }
  split; [|apply Hwalk; reflexivity].
  unfold PullSecretsToFiles.
  pose proof (Hwalk (fun event => is_put_request event = false
                                  /\ is_diff_event event = false)
                    (fun _ => conj eq_refl eq_refl)) as Hout.
  destruct (PullSecretsRecursively w fuel basePath) as [[[err|]| |] st];
    simpl in Hout |- *; try exact Hout.
  apply Forall_app. split; [exact Hout|].
  apply write_secrets_events; intros; split; reflexivity.
Qed.

End PullMore.

Lemma pulled_secret_was_fetched_witness :
  exists currentPath keys key,
    reached Example.world "kv/metadata" currentPath
    /\ ListSecrets Example.world currentPath = Ok keys
    /\ In key keys
    /\ "kv/metadata/app/metadata/config" = currentPath ++ "/" ++ key
    /\ key <> "" /\ is_folder key = false
    /\ httpGet Example.world (leaf_dataPath currentPath key)
       = Ok Example.config.
Proof.
  apply (pulled_secret_was_fetched Example.world 2 "kv/metadata").
  vm_compute. reflexivity.
Defined.

Lemma pulled_secret_has_file_witness :
  exists filePath,
    writeSecretToFile_filePath "kv/metadata/app/metadata/config"
                               "kv/metadata" "out"
    = Ok filePath
    /\ HasSuffix filePath ".yaml" = true.
Proof.
  apply (pulled_secret_has_file Example.world 2 "kv/metadata" "out"
           "kv/metadata/app/metadata/config" Example.config).
  vm_compute. reflexivity.
Defined.

(** ** What a push and its dry run do *)

Section PushMore.

Context {Payload : Type} (w : World Payload).

Lemma diff_differs_not_empty (existing new filename : string) :
  existing <> new -> generateUnifiedDiff existing new filename <> "".
Proof.
  intros Hne Hempty.
  destruct (diff_output_ordered existing new filename Hne)
    as (ranges & Hout & _).
  rewrite Hout in Hempty. unfold diff_header in Hempty.
  rewrite !append_assoc, append_cons in Hempty. discriminate.
Qed.

Lemma new_file_diff_not_empty (vaultPath newYaml : string) :
  new_file_diff vaultPath newYaml <> "".
Proof.
  unfold new_file_diff, new_file_writes, new_file_header.
  rewrite fold_left_append, append_empty_l. cbn [app fold_right].
  rewrite !append_assoc, append_cons. discriminate.
Qed.

(** X13. A secret that cannot be fetched is always shown as a new file by
    the dry run, whatever the reason of the failure and whatever the
    encoding of the local payload is, even an empty one: [outputDiff] is
    called once, behind the debug line, and the dry run returns [nil]. *)
Theorem unfetched_secret_shown_as_new (vaultPath : string)
    (newData : Payload) (err : error) :
  httpGet w (GetSecret_dataPath vaultPath) = Err err ->
  exists debug,
    showDryRunDiff w vaultPath newData
    = ([Printf debug;
        OutputDiff (new_file_diff vaultPath (marshal_bytes w newData))],
       None).
Proof.
  intros Hget. unfold showDryRunDiff, GetSecret. rewrite Hget.
  unfold dry_run_diff.
  pose proof (new_file_diff_not_empty vaultPath (marshal_bytes w newData))
    as Hne.
  apply String.eqb_neq in Hne. rewrite Hne. eexists. reflexivity.
Qed.

(** X14. For a secret the store holds, the dry run shows a diff exactly
    when the encoding of the local payload is not that of the stored one,
    byte for byte; payloads that both fail to encode count as equal. *)
Theorem dry_run_shows_iff_changed (vaultPath : string)
    (existingData newData : Payload) :
  httpGet w (GetSecret_dataPath vaultPath) = Ok existingData ->
  shows_diff (fst (showDryRunDiff w vaultPath newData))
  = negb (String.eqb (marshal_bytes w existingData)
                     (marshal_bytes w newData)).
Proof.
  intros Hget. unfold showDryRunDiff, GetSecret. rewrite Hget.
  unfold dry_run_diff.
  destruct (String.eqb (marshal_bytes w existingData)
                       (marshal_bytes w newData)) eqn:Heq.
  - apply String.eqb_eq in Heq. rewrite Heq, generateUnifiedDiff_same.
    reflexivity.
  - apply String.eqb_neq in Heq.
    pose proof (diff_differs_not_empty _ _ vaultPath Heq) as Hne.
    apply String.eqb_neq in Hne. rewrite Hne. reflexivity.
Qed.

Lemma showDryRunDiff_events (vaultPath : string) (newData : Payload) :
  Forall (push_event_allowed true)
         (fst (showDryRunDiff w vaultPath newData))
  /\ snd (showDryRunDiff w vaultPath newData) = None.
Proof.
  unfold showDryRunDiff, GetSecret. simpl. split; [|reflexivity].
  constructor; [repeat split; discriminate|].
  destruct (negb _); repeat constructor; discriminate.
Qed.

Lemma push_entry_events (dryRun : bool)
    (kvEngine subPath baseDir : string) (entry : WalkEntry) :
  Forall (push_event_allowed dryRun)
         (fst (push_entry w dryRun kvEngine subPath baseDir entry)).
Proof.
  unfold push_entry.
  destruct (entry_err entry); [constructor|].
  destruct (entry_isDir entry || negb (HasSuffix (entry_path entry) ".yaml"));
    [constructor|].
  destruct (ReadFile w (entry_path entry)) as [yamlData|err];
    [|constructor].
  destruct (yamlUnmarshal w yamlData) as [secretData|err]; [|constructor].
  destruct (PushSecretsFromFiles_vaultPath _ _ _ _) as [vaultPath|err];
    [|constructor].
  destruct dryRun.
  - apply showDryRunDiff_events.
  - unfold PutSecret. simpl.
    repeat constructor; discriminate.
Qed.

Lemma Walk_events (allowed : Event Payload -> Prop)
    (fn : WalkEntry -> list (Event Payload) * option error)
    (entries : list WalkEntry) :
  (forall entry, Forall allowed (fst (fn entry))) ->
  Forall allowed (fst (Walk fn entries)).
Proof.
  intros Hfn. induction entries as [|entry entries IH]; [constructor|].
  simpl. pose proof (Hfn entry) as He.
  destruct (fn entry) as [done [err|]]; [exact He|].
  destruct (Walk fn entries) as [later err]. simpl in *.
  apply Forall_app. split; assumption.
Qed.

Lemma push_events (inputDir metadataPath : string) (dryRun : bool) :
  Forall (push_event_allowed dryRun)
         (fst (PushSecretsFromFiles w inputDir metadataPath dryRun)).
Proof.
  unfold PushSecretsFromFiles.
  destruct (PushSecretsFromFiles_base inputDir metadataPath)
    as [[[kvEngine subPath] baseDir]|err]; [|constructor].
  destruct (negb (dir_exists w baseDir)); [constructor|].
  apply Walk_events. intros entry. apply push_entry_events.
Qed.

(** X15. A dry run never changes anything: among the events of
    [PushSecretsFromFiles] in a dry run there is no request to write a
    secret; a real push shows no diff; and neither changes a local file,
    whatever the files hold and the store answers, also when the push
    ends in an error. *)
Theorem push_events_by_mode (inputDir metadataPath : string) :
  Forall (fun event => is_put_request event = false
                       /\ is_file_event event = false)
         (fst (PushSecretsFromFiles w inputDir metadataPath true))
  /\ Forall (fun event => is_diff_event event = false
                          /\ is_file_event event = false)
            (fst (PushSecretsFromFiles w inputDir metadataPath false)).
Proof.
  split.
  - eapply List.Forall_impl; [|apply (push_events inputDir metadataPath true)].
    intros event (Hfile & Hput & _). split; [|exact Hfile].
    destruct (is_put_request event); [|reflexivity].
    discriminate (Hput eq_refl).
  - eapply List.Forall_impl;
      [|apply (push_events inputDir metadataPath false)].
    intros event (Hfile & _ & Hdiff). split; [|exact Hfile].
    destruct (is_diff_event event); [|reflexivity].
    discriminate (Hdiff eq_refl).
Qed.

(** X16. The walk of a push depends only on the entries that carry an
    error and on the files named [*.yaml]: directories and other files
    can be removed from the walk, or added to it, without a change of the
    events or of the result. *)
Theorem push_skips_other_entries (dryRun : bool)
    (kvEngine subPath baseDir : string) (entries : list WalkEntry) :
  Walk (push_entry w dryRun kvEngine subPath baseDir) entries
  = Walk (push_entry w dryRun kvEngine subPath baseDir)
         (List.filter push_candidate entries).
Proof.
  induction entries as [|entry entries IH]; [reflexivity|].
  cbn [List.filter].
  destruct (push_candidate entry) eqn:Hc.
  - simpl. rewrite IH. reflexivity.
  - assert (Hskip : push_entry w dryRun kvEngine subPath baseDir entry
                    = ([], None)).
    { unfold push_candidate in Hc. unfold push_entry.
      destruct (entry_err entry); [discriminate|].
      destruct (entry_isDir entry); [reflexivity|].
      simpl in Hc |- *. rewrite Hc. reflexivity. }
    simpl. rewrite Hskip, IH.
    destruct (Walk _ (List.filter push_candidate entries)). reflexivity.
Qed.

End PushMore.

Section DryRunStore.

Context {Payload : Type} (w1 w2 : World Payload).

Lemma Walk_result_ext
    (fn1 fn2 : WalkEntry -> list (Event Payload) * option error)
    (entries : list WalkEntry) :
  (forall entry, snd (fn1 entry) = snd (fn2 entry)) ->
  snd (Walk fn1 entries) = snd (Walk fn2 entries).
Proof.
  intros Hfn. induction entries as [|entry entries IH]; [reflexivity|].
  simpl. pose proof (Hfn entry) as He.
  destruct (fn1 entry) as [done1 [err1|]], (fn2 entry) as [done2 [err2|]];
    simpl in He; try discriminate; [exact He|].
  destruct (Walk fn1 entries), (Walk fn2 entries). exact IH.
Qed.

(** X17. The result of a dry run does not depend on the store: two
    worlds with the same files and the same YAML decoder give the same
    error, or both [nil], whatever their stores answer. A store that is
    down or refuses the token does not make a dry run fail. *)
Theorem dry_run_result_ignores_store (inputDir metadataPath : string) :
  (forall filePath, ReadFile w1 filePath = ReadFile w2 filePath) ->
  (forall yamlData, yamlUnmarshal w1 yamlData = yamlUnmarshal w2 yamlData) ->
  (forall dir, dir_exists w1 dir = dir_exists w2 dir) ->
  (forall root, walk_entries w1 root = walk_entries w2 root) ->
  snd (PushSecretsFromFiles w1 inputDir metadataPath true)
  = snd (PushSecretsFromFiles w2 inputDir metadataPath true).
Proof.
  intros Hread Hyaml Hdir Hwalk. unfold PushSecretsFromFiles.
  destruct (PushSecretsFromFiles_base inputDir metadataPath)
    as [[[kvEngine subPath] baseDir]|err]; [|reflexivity].
  rewrite Hdir, Hwalk.
  destruct (negb (dir_exists w2 baseDir)); [reflexivity|].
  apply Walk_result_ext. intros entry. unfold push_entry.
  destruct (entry_err entry); [reflexivity|].
  destruct (entry_isDir entry || negb (HasSuffix (entry_path entry) ".yaml"));
    [reflexivity|].
  rewrite Hread.
  destruct (ReadFile w2 (entry_path entry)) as [yamlData|err];
    [|reflexivity].
  rewrite Hyaml.
  destruct (yamlUnmarshal w2 yamlData) as [secretData|err]; [|reflexivity].
  destruct (PushSecretsFromFiles_vaultPath _ _ _ _) as [vaultPath|err];
    [|reflexivity].
  reflexivity.
Qed.

End DryRunStore.

Lemma unfetched_secret_shown_as_new_witness :
  exists debug,
    showDryRunDiff Example.world "kv/metadata/new" Example.db
    = ([Printf debug;
        OutputDiff (new_file_diff "kv/metadata/new"
                      (marshal_bytes Example.world Example.db))],
       None).
Proof.
  apply (unfetched_secret_shown_as_new Example.world "kv/metadata/new"
           Example.db "HTTP 404: ").
  reflexivity.
Defined.

Lemma dry_run_shows_iff_changed_witness :
  shows_diff (fst (showDryRunDiff Example.world "kv/metadata/db"
                                  Example.config))
  = true.
Proof.
  apply (dry_run_shows_iff_changed Example.world "kv/metadata/db"
           Example.db Example.config).
  reflexivity.
Defined.

Lemma dry_run_result_ignores_store_witness :
  snd (PushSecretsFromFiles Example.world "in" "kv/metadata" true)
  = snd (PushSecretsFromFiles
           (mkWorld Example.list_secrets (fun _ => Err "connection refused")
                    Example.http_post Example.marshal Example.unmarshal
                    (fun _ => None) Example.write_file Example.read_file
                    (fun _ => true) Example.entries map_to_list)
           "in" "kv/metadata" true).
Proof.
  apply dry_run_result_ignores_store; intros; reflexivity.
Defined.

Section PullPushDirectory.

(** X18. A pull writes where a push walks: for a metadata path a push
    accepts, the file of a secret below it is written below the very
    directory [PushSecretsFromFiles] starts its walk from, for the same
    local directory. *)
Theorem pull_writes_where_push_walks
    (dir metadataPath tail kvEngine subPath baseDir : string) :
  PushSecretsFromFiles_base dir metadataPath
  = Ok (kvEngine, subPath, baseDir) ->
  tail <> "" ->
  writeSecretToFile_filePath (metadataPath ++ "/" ++ tail) metadataPath dir
  = Ok (Filepath.Join2 baseDir (tail ++ ".yaml")).
Proof.
  intros Hbase Ht. unfold writeSecretToFile_filePath.
  rewrite TrimPrefix_append, TrimPrefix_append.
  apply String.eqb_neq in Ht. rewrite Ht.
  unfold PushSecretsFromFiles_base in Hbase.
  destruct (_ || _); [discriminate|].
  destruct (2 <? length (Split metadataPath slash))%nat;
    injection Hbase as _ _ <-; reflexivity.
Qed.

Lemma pull_writes_where_push_walks_witness :
  writeSecretToFile_filePath ("kv/metadata/app" ++ "/" ++ "db")
                             "kv/metadata/app" "out"
  = Ok (Filepath.Join2 "out/app" ("db" ++ ".yaml")).
Proof.
  apply (pull_writes_where_push_walks "out" "kv/metadata/app" "db"
                                      "kv" "app" "out/app").
  - vm_compute. reflexivity.
  - discriminate.
Defined.

End PullPushDirectory.

(** ** The preview sink *)

Section Sink.

Variable lookPath : string -> bool.

Lemma first_tool_found (candidates : list string) :
  Forall (fun tool => tool <> "") candidates ->
  (first_tool lookPath candidates = ""
   /\ Forall (fun tool => lookPath tool = false) candidates)
  \/ exists before after,
      candidates
      = (before ++ first_tool lookPath candidates :: after)%list
      /\ lookPath (first_tool lookPath candidates) = true
      /\ Forall (fun tool => lookPath tool = false) before.
Proof.
  induction candidates as [|tool rest IH]; intros Hne.
  - left. split; [reflexivity|constructor].
  - inversion Hne as [|? ? Ht Hrest]; subst. simpl.
    destruct (lookPath tool) eqn:Hl.
    + right. exists [], rest. split; [reflexivity|].
      split; [exact Hl|constructor].
    + destruct (IH Hrest) as [[Hnone Hall] | (before & after & Hc & Hf & Hb)].
      * left. split; [exact Hnone|]. constructor; assumption.
      * right. exists (tool :: before), after.
        split; [simpl; rewrite <- Hc; reflexivity|].
        split; [exact Hf|]. constructor; assumption.
Qed.

(** X19. The first detection follows the order of preference: the tool
    [detectDiffTool] returns is one of [delta], [difftastic] and
    [diff-so-fancy] that [exec.LookPath] finds while it finds none of
    those before it in this order, or it is the empty name and
    [exec.LookPath] finds none of the three. *)
Theorem detectDiffTool_preference (st : ToolState) :
  diffToolDetected st = false ->
  (fst (detectDiffTool lookPath st) = ""
   /\ Forall (fun tool => lookPath tool = false) tools)
  \/ exists before after,
      tools = (before ++ fst (detectDiffTool lookPath st) :: after)%list
      /\ lookPath (fst (detectDiffTool lookPath st)) = true
      /\ Forall (fun tool => lookPath tool = false) before.
Proof.
  intros Hd. unfold detectDiffTool. rewrite Hd. cbn [fst].
  apply (first_tool_found tools). repeat constructor; discriminate.
Qed.

(** X20. The detection happens once: after a call of [detectDiffTool]
    every later call returns the tool of that call and leaves the state
    as it is, whatever [exec.LookPath] would find by then. *)
Theorem detectDiffTool_caches (later : string -> bool) (st : ToolState) :
  detectDiffTool later (snd (detectDiffTool lookPath st))
  = detectDiffTool lookPath st
  /\ diffToolDetected (snd (detectDiffTool lookPath st)) = true.
Proof.
  unfold detectDiffTool. destruct (diffToolDetected st) eqn:Hd; simpl.
  - rewrite Hd. split; reflexivity.
  - split; reflexivity.
Qed.

(** X21. [outputDiff] never loses the diff: whatever tool is remembered
    or found and whatever the tool does, either the diff is printed as it
    is, or one of the three tools was run on it as standard input and
    ended without error, and then nothing else is printed. *)
Theorem outputDiff_keeps_diff
    (run : string -> list string -> string -> string * option error)
    (diffContent : string) (st : ToolState) :
  In (Print diffContent) (fst (outputDiff lookPath run diffContent st))
  \/ exists name args output,
      In name tools
      /\ run name args diffContent = (output, None)
      /\ fst (outputDiff lookPath run diffContent st) = [ToolOutput output].
Proof.
  unfold outputDiff.
  destruct (detectDiffTool lookPath st) as [tool st'].
  destruct (String.eqb tool ""); [left; left; reflexivity|].
  destruct (tool_command tool) as [[name args]|] eqn:Hc;
    [|left; left; reflexivity].
  destruct (run name args diffContent) as [output [err|]] eqn:Hr.
  - left. right. left. reflexivity.
  - right. exists name, args, output.
    split; [|split; [exact Hr|reflexivity]].
    unfold tool_command in Hc.
    destruct (String.eqb tool "delta");
      [injection Hc as <- _; simpl; auto|].
    destruct (String.eqb tool "difftastic");
      [injection Hc as <- _; simpl; auto|].
    destruct (String.eqb tool "diff-so-fancy");
      [injection Hc as <- _; simpl; auto|discriminate].
Qed.

End Sink.

Lemma detectDiffTool_preference_witness :
  (fst (detectDiffTool (fun tool => String.eqb tool "difftastic")
                       (mkToolState "" false)) = ""
   /\ Forall (fun tool => String.eqb tool "difftastic" = false) tools)
  \/ exists before after,
      tools
      = (before
         ++ fst (detectDiffTool (fun tool => String.eqb tool "difftastic")
                                (mkToolState "" false)) :: after)%list
      /\ String.eqb
           (fst (detectDiffTool (fun tool => String.eqb tool "difftastic")
                                (mkToolState "" false)))
           "difftastic" = true
      /\ Forall (fun tool => String.eqb tool "difftastic" = false) before.
Proof.
  apply (detectDiffTool_preference
           (fun tool => String.eqb tool "difftastic")
           (mkToolState "" false)).
  reflexivity.
Defined.

(** ** The command line *)

Section CommandLine.

Import Cli.

Lemma last_default (A : Type) (l : list A) (d d' : A) :
  l <> [] -> List.last l d = List.last l d'.
Proof.
  induction l as [|x l IH]; [contradiction|]. intros _.
  destruct l as [|y l]; [reflexivity|].
  rewrite !(last_cons _ x) by discriminate. apply IH. discriminate.
Qed.

Lemma last_head (A : Type) (x d : A) (l : list A) :
  List.last (x :: l) d = List.last l x.
Proof.
  destruct l as [|y l]; [reflexivity|].
  rewrite last_cons by discriminate. apply last_default. discriminate.
Qed.

Lemma last_in (A : Type) (l : list A) (d : A) :
  l <> [] -> In (List.last l d) l.
Proof.
  intros Hl. rewrite (app_removelast_last d Hl) at 2.
  apply in_or_app. right. left. reflexivity.
Qed.

Lemma push_fold (rest : list string) (parsed : PushArgs) :
  fold_left push_arg rest parsed
  = mkPushArgs
      (List.last
         (List.filter (fun arg => negb (looks_like_dir arg)
                                  && negb (HasPrefix arg "--")) rest)
         (subPath parsed))
      (List.last (List.filter looks_like_dir rest) (inputDir parsed))
      (dryRun parsed
       || existsb (fun arg => String.eqb arg "--dry-run") rest).
Proof.
  revert parsed. induction rest as [|arg rest IH]; intros parsed.
  - destruct parsed. simpl. rewrite orb_false_r. reflexivity.
  - cbn [fold_left]. rewrite IH. unfold push_arg.
    cbn [List.filter existsb].
    destruct (String.eqb arg "--dry-run") eqn:Hdry.
    + apply String.eqb_eq in Hdry. subst arg.
      cbn [looks_like_dir HasPrefix String.prefix negb andb orb
           subPath inputDir dryRun].
      simpl. rewrite orb_true_r. reflexivity.
    + destruct (looks_like_dir arg) eqn:Hdir;
        [|destruct (HasPrefix arg "--") eqn:Hflag];
        cbn [negb andb orb subPath inputDir dryRun];
        rewrite ?last_head; reflexivity.
Qed.

(** X22. The arguments of [push] behind the namespace are read by kind,
    not by position: the push is a dry run exactly when [--dry-run] is
    among them; the input directory is the last argument that looks like
    a directory, and [./vault-secrets] without one; the sub-path is the
    last argument that neither looks like a directory nor starts with
    [--], and empty without one. *)
Theorem push_args_by_kind (rest : list string) :
  dryRun (push_args rest)
  = existsb (fun arg => String.eqb arg "--dry-run") rest
  /\ inputDir (push_args rest)
     = List.last (List.filter looks_like_dir rest) "./vault-secrets"
  /\ subPath (push_args rest)
     = List.last
         (List.filter (fun arg => negb (looks_like_dir arg)
                                  && negb (HasPrefix arg "--")) rest)
         "".
Proof.
  unfold push_args. rewrite push_fold. cbv zeta.
  cbn [inputDir subPath dryRun orb].
  destruct (String.eqb (List.last (List.filter looks_like_dir rest) "") "")
    eqn:He; cbn [inputDir subPath dryRun].
  - split; [reflexivity|]. split; [|reflexivity].
    destruct (List.filter looks_like_dir rest) as [|dir dirs] eqn:Hdirs;
      [reflexivity|].
    assert (Hin : In (List.last (dir :: dirs) "")
                     (List.filter looks_like_dir rest)).
    { rewrite Hdirs. apply last_in. discriminate. }
    apply filter_In in Hin as [_ Hlooks].
    apply String.eqb_eq in He. rewrite He in Hlooks. discriminate.
  - split; [reflexivity|]. split; [|reflexivity].
    apply last_default. intros Hnil. rewrite Hnil in He. discriminate.
Qed.

(** X23. [pull] reads the same two arguments by position. With the
    sub-path first and the directory second, [pull] and [push] agree;
    with the directory first, [push] still takes the sub-path behind it
    while [pull] leaves the sub-path empty and ignores what follows. *)
Theorem pull_push_argument_order (sub dir : string) :
  looks_like_dir dir = true ->
  looks_like_dir sub = false ->
  HasPrefix sub "--" = false ->
  pull_args [sub; dir] = (sub, dir)
  /\ (subPath (push_args [sub; dir]), inputDir (push_args [sub; dir]))
     = (sub, dir)
  /\ (subPath (push_args [dir; sub]), inputDir (push_args [dir; sub]))
     = (sub, dir)
  /\ forall more, pull_args (dir :: more) = ("", dir).
Proof.
  intros Hdir Hsub Hflag.
  assert (Hne : String.eqb dir "" = false).
  { destruct dir; [discriminate|reflexivity]. }
  assert (Hd1 : String.eqb dir "--dry-run" = false).
  { destruct (String.eqb dir "--dry-run") eqn:He; [|reflexivity].
    apply String.eqb_eq in He. subst dir. discriminate. }
  assert (Hd2 : String.eqb sub "--dry-run" = false).
  { destruct (String.eqb sub "--dry-run") eqn:He; [|reflexivity].
    apply String.eqb_eq in He. subst sub. discriminate. }
  split; [|split; [|split]].
  - unfold pull_args. rewrite Hsub, Hne. reflexivity.
  - unfold push_args. simpl. unfold push_arg.
    rewrite Hd2, Hsub, Hflag. simpl. rewrite Hd1, Hdir. simpl.
    rewrite Hne. reflexivity.
  - unfold push_args. simpl. unfold push_arg.
    rewrite Hd1, Hdir. simpl. rewrite Hd2, Hsub, Hflag. simpl.
    rewrite Hne. reflexivity.
  - intros more. unfold pull_args. rewrite Hdir, Hne. reflexivity.
Qed.

Lemma pull_push_argument_order_witness :
  pull_args ["./secrets"; "app"] = ("", "./secrets")
  /\ subPath (push_args ["./secrets"; "app"]) = "app".
Proof.
  destruct (pull_push_argument_order "app" "./secrets")
    as (_ & _ & Hpush & Hpull); try reflexivity.
  split; [apply Hpull|].
  exact (f_equal fst Hpush).
Defined.

Lemma find_command_flags (flags commandArgs : list string)
    (command : string) :
  Forall (fun arg => HasPrefix arg "-" = true) flags ->
  HasPrefix command "-" = false ->
  find_command (flags ++ command :: commandArgs)
  = (Some flags, command, commandArgs).
Proof.
  intros Hflags Hc. induction Hflags as [|flag flags Hf _ IH].
  - simpl. rewrite Hc. reflexivity.
  - simpl. rewrite Hf, IH. reflexivity.
Qed.

Lemma find_command_none (args : list string) :
  Forall (fun arg => HasPrefix arg "-" = true) args ->
  find_command args = (None, "", []).
Proof.
  intros Hall. induction Hall as [|arg args Ha _ IH]; [reflexivity|].
  simpl. rewrite Ha, IH. reflexivity.
Qed.

Lemma find_command_cases (args : list string) :
  Forall (fun arg => HasPrefix arg "-" = true) args
  \/ exists flags command commandArgs,
      args = (flags ++ command :: commandArgs)%list
      /\ Forall (fun arg => HasPrefix arg "-" = true) flags
      /\ HasPrefix command "-" = false.
Proof.
  induction args as [|arg args IH]; [left; constructor|].
  destruct (HasPrefix arg "-") eqn:Ha.
  - destruct IH as [Hall | (flags & command & commandArgs & -> & Hf & Hc)].
    + left. constructor; assumption.
    + right. exists (arg :: flags), command, commandArgs.
      split; [reflexivity|]. split; [constructor; assumption|exact Hc].
  - right. exists [], arg, args.
    split; [reflexivity|]. split; [constructor|exact Ha].
Qed.

Lemma main_with_arguments (parse : list string -> option string)
    (args : list string) :
  args <> [] ->
  main parse args
  = let '(flags, command, commandArgs) := find_command args in
    match match flags with
          | Some flags => parse flags
          | None => Some "kv"
          end with
    | None => FlagExit
    | Some kvEngine =>
        if String.eqb command "" then NoCommand
        else if String.eqb command "list"
        then RunList kvEngine commandArgs
        else if String.eqb command "pull"
        then RunPull kvEngine commandArgs
        else if String.eqb command "push"
        then RunPush kvEngine commandArgs
        else UnknownCommand command
    end.
Proof. destruct args; [contradiction|reflexivity]. Qed.

(** X24. [main] takes the first argument that does not start with [-] as
    the command, and an empty one counts as none. It reports that no
    command was specified exactly when there are arguments and either all
    of them start with [-], in which case no flag is parsed, or the first
    that does not is the empty text and the flags before it parse. When
    the first argument that does not start with [-] is not empty and the
    flags before it parse, [main] dispatches on it, with the engine of
    the flags and the arguments behind the command. *)
Theorem main_command_scan (parse : list string -> option string)
    (args : list string) :
  (main parse args = NoCommand
   <-> args <> []
       /\ (Forall (fun arg => HasPrefix arg "-" = true) args
           \/ exists flags rest,
               args = (flags ++ "" :: rest)%list
               /\ Forall (fun arg => HasPrefix arg "-" = true) flags
               /\ parse flags <> None))
  /\ forall flags command commandArgs kvEngine,
      args = (flags ++ command :: commandArgs)%list ->
      Forall (fun arg => HasPrefix arg "-" = true) flags ->
      HasPrefix command "-" = false ->
      command <> "" ->
      parse flags = Some kvEngine ->
      main parse args
      = if String.eqb command "list" then RunList kvEngine commandArgs
        else if String.eqb command "pull" then RunPull kvEngine commandArgs
        else if String.eqb command "push" then RunPush kvEngine commandArgs
        else UnknownCommand command.
Proof.
  split; [split|].
  - intros Hmain.
    assert (Hne : args <> []) by (intros ->; discriminate).
    split; [exact Hne|].
    destruct (find_command_cases args)
      as [Hall | (flags & command & commandArgs & -> & Hf & Hc)];
      [left; exact Hall|].
    right. rewrite (main_with_arguments _ _ Hne) in Hmain.
    rewrite (find_command_flags _ _ _ Hf Hc) in Hmain.
    destruct (parse flags) as [kvEngine|] eqn:Hparse; [|discriminate].
    destruct (String.eqb command "") eqn:He.
    + apply String.eqb_eq in He. subst command.
      exists flags, commandArgs. split; [reflexivity|].
      split; [exact Hf|]. rewrite Hparse. discriminate.
    + destruct (String.eqb command "list"); [discriminate|].
      destruct (String.eqb command "pull"); [discriminate|].
      destruct (String.eqb command "push"); discriminate.
  - intros (Hne & [Hall | (flags & rest & -> & Hf & Hparse)]);
      rewrite (main_with_arguments _ _ Hne).
    + rewrite (find_command_none _ Hall). reflexivity.
    + rewrite (find_command_flags flags rest "" Hf eq_refl).
      destruct (parse flags); [reflexivity|contradiction].
  - intros flags command commandArgs kvEngine -> Hf Hc Hne Hparse.
    rewrite main_with_arguments by (destruct flags; discriminate).
    rewrite (find_command_flags _ _ _ Hf Hc), Hparse.
    apply String.eqb_neq in Hne. rewrite Hne. reflexivity.
Qed.

(** An empty first argument: no command is specified, although not every
    argument starts with [-]. *)
Example main_empty_command :
  main (fun _ => Some "kv") [""; "list"; "ns"] = NoCommand
  /\ main (fun _ => Some "secrets") ["--kv-engine=secrets"; "list"; "ns"]
     = RunList "secrets" ["ns"].
Proof. split; reflexivity. Qed.

(** X25. The metadata path the command line builds from an engine name
    without separator is always one [PushSecretsFromFiles] accepts: its
    engine is the one of the flag, its sub-path the one of the command
    line, and the walk starts from the input directory, joined with the
    sub-path if there is one. *)
Theorem cli_metadata_path_accepted (kvEngine sub dir : string) :
  has_byte slash kvEngine = false ->
  PushSecretsFromFiles_base dir (metadataPath kvEngine sub)
  = Ok (kvEngine, sub,
        if String.eqb sub "" then dir else Filepath.Join2 dir sub).
Proof.
  intros He. unfold metadataPath, PushSecretsFromFiles_base.
  destruct (String.eqb sub "") eqn:Hs.
  - apply String.eqb_eq in Hs. subst sub.
    change (kvEngine ++ "/metadata")
      with (kvEngine ++ String slash "metadata").
    rewrite Split_append, (Split_no_sep _ _ He). reflexivity.
  - change (kvEngine ++ "/metadata/" ++ sub)
      with (kvEngine ++ String slash ("metadata" ++ String slash sub)).
    rewrite Split_two by (exact He || reflexivity).
    pose proof (Split_not_nil sub slash) as Hn.
    replace (length (kvEngine :: "metadata" :: Split sub slash) <? 2)%nat
      with false by (symmetry; apply Nat.ltb_ge; simpl; lia).
    replace (2 <? length (kvEngine :: "metadata" :: Split sub slash))%nat
      with true
      by (symmetry; apply Nat.ltb_lt;
          destruct (Split sub slash); [contradiction|simpl; lia]).
    cbn [nth skipn].
    change (String.eqb "metadata" "metadata") with true. cbn [negb orb].
    change (skipn 0 (Split sub slash)) with (Split sub slash).
    change "/" with (String slash "").
    rewrite Join_Split. reflexivity.
Qed.

Lemma cli_metadata_path_accepted_witness :
  PushSecretsFromFiles_base "./vault-secrets" (metadataPath "kv" "app")
  = Ok ("kv", "app", "vault-secrets/app").
Proof.
  exact (cli_metadata_path_accepted "kv" "app" "./vault-secrets" eq_refl).
Defined.

(** X26. An engine name of several elements, as a mount path with a
    separator is, makes every push fail before any file is read, unless
    its second element is [metadata]: the metadata path built from it is
    refused as invalid. [GetSecret] leaves such a path as it is and reads
    below the metadata path. *)
Theorem cli_engine_with_separator_refused
    (kvEngine sub dir first second : string) (more : list string) :
  Split kvEngine slash = first :: second :: more ->
  second <> "metadata" ->
  PushSecretsFromFiles_base dir (metadataPath kvEngine sub)
  = Err ("invalid metadata path: " ++ metadataPath kvEngine sub)
  /\ forall key,
      GetSecret_dataPath (metadataPath kvEngine sub ++ "/" ++ key)
      = metadataPath kvEngine sub ++ "/" ++ key.
Proof.
  intros Hs Hsecond.
  assert (Hparts : forall tail,
             exists rest,
               Split (kvEngine ++ String slash tail) slash
               = first :: second :: rest).
  { intros tail. rewrite Split_append, Hs. eexists. reflexivity. }
  apply String.eqb_neq in Hsecond.
  split.
  - unfold PushSecretsFromFiles_base.
    assert (Hp : exists rest,
               Split (metadataPath kvEngine sub) slash
               = first :: second :: rest).
    { unfold metadataPath. destruct (String.eqb sub "").
      - apply (Hparts "metadata").
      - apply (Hparts ("metadata/" ++ sub)). }
    destruct Hp as [rest ->]. simpl. rewrite Hsecond. reflexivity.
  - intros key. apply dataPath_other.
    assert (Hp : exists rest,
               Split (metadataPath kvEngine sub ++ "/" ++ key) slash
               = first :: second :: rest).
    { unfold metadataPath. destruct (String.eqb sub "").
      - rewrite append_assoc. apply (Hparts ("metadata" ++ "/" ++ key)).
      - rewrite !append_assoc.
        apply (Hparts ("metadata/" ++ sub ++ "/" ++ key)). }
    destruct Hp as [rest ->]. simpl.
    apply String.eqb_neq. exact Hsecond.
Qed.

Lemma cli_engine_with_separator_refused_witness :
  PushSecretsFromFiles_base "./vault-secrets" (metadataPath "team/kv" "app")
  = Err "invalid metadata path: team/kv/metadata/app".
Proof.
  apply (cli_engine_with_separator_refused "team/kv" "app" "./vault-secrets"
           "team" "kv" []);
    [reflexivity|discriminate].
Defined.

Section HandlerFacts.

Context {Payload : Type}.
Variable connect : string -> string -> string -> World Payload.
Variable getenv : string -> string.
Variable kvEngine : string.

(** X27. Without [VAULT_ADDR] or without [VAULT_TOKEN] every command
    that has its namespace ends in [log.Fatal] before it prints anything
    or contacts the store, and the address is asked for first. *)
Theorem missing_environment_is_fatal (fuel : nat) (namespace : string)
    (rest : list string) :
  getenv "VAULT_ADDR" = "" \/ getenv "VAULT_TOKEN" = "" ->
  exists variable,
    (variable = "VAULT_ADDR" \/ variable = "VAULT_TOKEN")
    /\ getenv variable = ""
    /\ (getenv "VAULT_ADDR" = "" -> variable = "VAULT_ADDR")
    /\ let fatal :=
         ([], Fatal (variable ++ " environment variable is required")) in
       handleListCommand connect getenv kvEngine (namespace :: rest) = fatal
       /\ handlePullCommand connect getenv kvEngine fuel (namespace :: rest)
          = fatal
       /\ handlePushCommand connect getenv kvEngine (namespace :: rest)
          = fatal.
Proof.
  intros Hmissing.
  destruct (String.eqb (getenv "VAULT_ADDR") "") eqn:Haddr.
  - exists "VAULT_ADDR". apply String.eqb_eq in Haddr.
    split; [left; reflexivity|]. split; [exact Haddr|].
    split; [reflexivity|].
    unfold handleListCommand, handlePullCommand, handlePushCommand,
      getVaultClient.
    rewrite Haddr. simpl. destruct (pull_args rest). repeat split.
  - exists "VAULT_TOKEN".
    assert (Htoken : getenv "VAULT_TOKEN" = "").
    { destruct Hmissing as [Ha | Ht]; [|exact Ht].
      rewrite Ha in Haddr. discriminate. }
    split; [right; reflexivity|]. split; [exact Htoken|].
    split; [intros Ha; rewrite Ha in Haddr; discriminate|].
    unfold handleListCommand, handlePullCommand, handlePushCommand,
      getVaultClient.
    rewrite Haddr, Htoken. simpl. destruct (pull_args rest). repeat split.
Qed.

(** X28. With [--dry-run] anywhere behind the namespace, [push] sends no
    request to write a secret and changes no local file, whatever the
    other arguments, the environment, the files and the store are. *)
Theorem cli_dry_run_never_writes (namespace : string)
    (rest : list string) :
  In "--dry-run" rest ->
  Forall (fun event => is_put_request event = false
                       /\ is_file_event event = false)
         (fst (handlePushCommand connect getenv kvEngine
                                 (namespace :: rest))).
Proof.
  intros Hin.
  assert (Hdry : dryRun (push_args rest) = true).
  { unfold push_args. rewrite push_fold. cbv zeta.
    assert (He : existsb (fun arg => String.eqb arg "--dry-run") rest
                 = true).
    { apply existsb_exists. exists "--dry-run".
      split; [exact Hin|reflexivity]. }
    destruct (String.eqb _ ""); simpl; rewrite He; reflexivity. }
  unfold handlePushCommand. rewrite Hdry.
  destruct (getVaultClient getenv) as [[vaultAddr vaultToken]|message];
    [|constructor].
  pose proof (push_events (connect vaultAddr vaultToken namespace)
                (inputDir (push_args rest))
                (metadataPath kvEngine (subPath (push_args rest))) true)
    as Hevents.
  assert (Hquiet : Forall (fun event => is_put_request event = false
                                        /\ is_file_event event = false)
                     (fst (PushSecretsFromFiles
                             (connect vaultAddr vaultToken namespace)
                             (inputDir (push_args rest))
                             (metadataPath kvEngine
                                           (subPath (push_args rest)))
                             true))).
  { eapply List.Forall_impl; [|exact Hevents].
    intros event (Hfile & Hput & _). split; [|exact Hfile].
    destruct (is_put_request event); [|reflexivity].
    discriminate (Hput eq_refl). }
  destruct (PushSecretsFromFiles _ _ _ true) as [events [err|]];
    simpl in Hquiet |- *.
  - constructor; [split; reflexivity|exact Hquiet].
  - constructor; [split; reflexivity|].
    apply Forall_app. split; [exact Hquiet|].
    constructor; [split; reflexivity|constructor].
Qed.

End HandlerFacts.

End CommandLine.

Lemma missing_environment_is_fatal_witness :
  exists variable,
    Example.getenv_empty variable = ""
    /\ Cli.handlePushCommand (fun _ _ _ => Example.world)
                             Example.getenv_empty "kv" ["ns"; "--dry-run"]
       = ([], Cli.Fatal (variable ++ " environment variable is required")).
Proof.
  destruct (missing_environment_is_fatal (fun _ _ _ => Example.world)
              Example.getenv_empty "kv" 1 "ns" ["--dry-run"])
    as (variable & _ & Hempty & _ & _ & _ & Hpush);
    [left; reflexivity|].
  exists variable. split; [exact Hempty|exact Hpush].
Defined.

Lemma cli_dry_run_never_writes_witness :
  Forall (fun event => is_put_request event = false
                       /\ is_file_event event = false)
         (fst (Cli.handlePushCommand
                 (fun _ _ _ => Example.world)
                 (fun _ => "set") "kv" ["ns"; "./in"; "--dry-run"])).
Proof.
  apply (cli_dry_run_never_writes (fun _ _ _ => Example.world)
           (fun _ => "set") "kv" "ns" ["./in"; "--dry-run"]).
  right. left. reflexivity.
Defined.
